(** * MultiProcessDataLoader

    A shallow embedding of
    [allennlp/data/data_loaders/multi_process_data_loader.py].

    Python integers are [Z] ([//] is [Z.div], [%] is [Z.modulo]: both
    floor towards minus infinity, as Python does), an optional argument is
    an [option], a generator is represented by its run: the values it
    yields, in order, and the way it stops. *)

From Stdlib Require Import String ZArith Bool Lia PeanoNat List Permutation.
Import ListNotations.

Local Open Scope string_scope.
Local Open Scope list_scope.
Local Open Scope Z_scope.

Set Implicit Arguments.

(** ** Python values *)

(** Exceptions, instances of [Exception]. [ValueError], [TypeError],
    [AssertionError] and [WorkerError] are the ones the loader raises
    itself; [RuntimeError] is what the interpreter raises when a
    [StopIteration] escapes a generator body (PEP 479); [IndexError] comes
    from indexing a window with a sampler's index, [ZeroDivisionError]
    from dividing by a batch size of zero; [SourceError] is an exception
    raised inside [DatasetReader.read], of which only the text is known:
    its class is whatever the reader raises, a [ValueError] included.
    [SetupError] is in the same way an exception raised while the queue is
    created or the workers are started (an [OverflowError] for a bound
    that does not fit, an [OSError] when the system refuses). *)
Inductive PyError : Type :=
| ValueError (msg : string)
| TypeError
| ZeroDivisionError
| RuntimeError (msg : string)
| AssertionError
| IndexError (msg : string)
| WorkerError (msg : string)
| SourceError (msg : string)
| SetupError (msg : string).

(** [str(e)]. *)
Definition str (e : PyError) : string :=
  match e with
  | ValueError m | RuntimeError m | IndexError m | WorkerError m
  | SourceError m | SetupError m => m
  | TypeError | ZeroDivisionError | AssertionError => EmptyString
  end.

(** How a generator stops: it returns ([StopIteration]), it raises, or the
    call never comes back (a [queue.get()] on a queue nobody writes to). *)
Inductive Stop : Type :=
| StopIteration
| Raised (e : PyError)
| Blocked.

Record Run (A : Type) : Type := mkRun { yielded : list A; stop : Stop }.

(** The result of an ordinary call. *)
Inductive Result (A : Type) : Type :=
| Ok (a : A)
| Raise (e : PyError)
| Hang.

Arguments Raise {A} e.
Arguments Hang {A}.

Definition is_none {A} (o : option A) : bool :=
  match o with None => true | Some _ => false end.

Definition is_some {A} (o : option A) : bool := negb (is_none o).

(** [l[i]] for a Python list: a negative index counts from the end. *)
Definition getitem {A} (l : list A) (i : Z) : option A :=
  let n := Z.of_nat (length l) in
  if 0 <=? i then nth_error l (Z.to_nat i)
  else if - n <=? i then nth_error l (Z.to_nat (n + i))
  else None.

(** [[l[i] for i in indices]]. *)
Fixpoint getitems {A} (l : list A) (indices : list Z) : option (list A) :=
  match indices with
  | [] => Some []
  | i :: rest =>
      match getitem l i, getitems l rest with
      | Some x, Some xs => Some (x :: xs)
      | _, _ => None
      end
  end.

(** [torch.device]. *)
Inductive Device : Type :=
| cpu
| cuda (index : Z).

Definition is_cpu (d : Device) : bool :=
  match d with cpu => true | cuda _ => false end.

(** A [DatasetReader.read] call, seen from its consumer: the records it
    yields and, when reading fails, the text of the exception raised after
    them. The exception is an [Exception]; what [except Exception] lets
    through ([KeyboardInterrupt], [SystemExit]) is outside this model. *)
Record Source (A : Type) : Type :=
  mkSource { records : list A; failure : option string }.

Definition source_run {A} (s : Source A) : Run A :=
  mkRun (records s)
        (match failure s with
         | None => StopIteration
         | Some msg => Raised (SourceError msg)
         end).

Record WorkerInfo : Type :=
  mkWorkerInfo { wi_num_workers : Z; wi_worker_id : Z }.

(** ** Queue messages

    A worker puts [(value, None)], [(None, (str(e), traceback))] and
    [(None, None)] on the queue. *)
Inductive QueueMessage (T : Type) : Type :=
| Value (x : T)
| Error (e : string) (tb : string)
| Done.

Arguments Error {T} e tb.
Arguments Done {T}.

(** ** [allennlp.common.util.lazy_groups_of] *)

Section Groups.
Variable A : Type.

(** Modelled from the spec: the rounds of [lazy_groups_of] (see below),
    one [islice] of [group_size] items a round, until a round finds
    nothing left. *)
Fixpoint groups_of (fuel : nat) (l : list A) (group_size : nat)
  : list (list A) :=
  match fuel with
  | O => []
  | S fuel' =>
      match firstn group_size l with
      | [] => []
      | s => s :: groups_of fuel' (skipn group_size l) group_size
      end
  end.

(** Modelled from the spec: [lazy_groups_of] lives in
    [allennlp.common.util], which is not part of the sources at hand. It
    cuts the stream into contiguous groups of [group_size] items, the
    last one possibly shorter, and stops at the first empty group. Every
    group consumes at least one item, so [length l] rounds are enough. *)
Definition lazy_groups_of (l : list A) (group_size : Z) : list (list A) :=
  groups_of (length l) l (Z.to_nat group_size).

(** Modelled from the spec: [lazy_groups_of] over a stream that may
    fail. A group is yielded once it has been read completely, and the
    failure surfaces while the next one is being read. *)
Definition lazy_groups_of_run (r : Run A) (group_size : Z)
  : Run (list A) :=
  match stop r with
  | StopIteration => mkRun (lazy_groups_of (yielded r) group_size) StopIteration
  | s =>
      let w := Z.to_nat group_size in
      let full := (length (yielded r) / w * w)%nat in
      mkRun (lazy_groups_of (firstn full (yielded r)) group_size) s
  end.
End Groups.

(** ** Runs *)

(** [yield x] in front of the rest of a generator body. *)
Definition yield {A} (x : A) (r : Run A) : Run A :=
  mkRun (x :: yielded r) (stop r).

(** One generator body after another: the second one starts only when the
    first one returned. *)
Definition run_then {A} (r k : Run A) : Run A :=
  match stop r with
  | StopIteration => mkRun (yielded r ++ yielded k) (stop k)
  | _ => r
  end.

(** A generator expression [(f(x) for x in xs)] where [f] may raise, over a
    stream that ends with [s]. *)
Fixpoint map_until {A B} (f : A -> Result B) (xs : list A) (s : Stop)
  : Run B :=
  match xs with
  | [] => mkRun [] s
  | x :: rest =>
      match f x with
      | Ok y => yield y (map_until f rest s)
      | Raise e => mkRun [] (Raised e)
      | Hang => mkRun [] Blocked
      end
  end.

(** What [next(g)] gives. *)
Inductive Next (A : Type) : Type :=
| Item (x : A)
| Stopped (s : Stop).

Arguments Stopped {A} s.

(** A generator object: created and not started yet, or suspended with the
    rest of its run ahead. *)
Inductive Generator (A : Type) : Type :=
| Fresh
| Resumed (rest : Run A).

Arguments Fresh {A}.

(** ** Processes and the joinable queue *)

(** A worker process, as [_join_workers] sees it: what [is_alive()]
    answers when it is asked, and whether [terminate()] has been called on
    it. *)
Record BaseProcess : Type :=
  mkProcess { pid : nat; is_alive : bool; terminated : bool }.

(** [worker.terminate()] sends the signal and returns at once. Nobody
    waits for the process: whether it has exited when [_join_workers]
    returns is not known, and [is_alive] is left as it was answered. *)
Definition terminate (p : BaseProcess) : BaseProcess :=
  mkProcess (pid p) (is_alive p) true.

(** Of a [multiprocessing.JoinableQueue] the teardown needs the counter of
    unfinished tasks only: every [put] adds one, every [task_done] takes
    one away and raises [ValueError] when there is none left. *)
Record JoinableQueue : Type :=
  mkQueue { unfinished_tasks : nat; closed : bool }.

Definition task_done (q : JoinableQueue) : option JoinableQueue :=
  match unfinished_tasks q with
  | O => None
  | S n => Some (mkQueue n (closed q))
  end.

Definition close (q : JoinableQueue) : JoinableQueue :=
  mkQueue (unfinished_tasks q) true.

(** The first loop of [_join_workers]: one [task_done] for each worker,
    until the queue refuses one. *)
Fixpoint acknowledge (rounds : nat) (q : JoinableQueue) : JoinableQueue :=
  match rounds with
  | O => q
  | S rounds' =>
      match task_done q with
      | Some q' => acknowledge rounds' q'
      | None => q
      end
  end.

Definition _join_workers (workers : list BaseProcess) (q : JoinableQueue)
  : list BaseProcess * JoinableQueue :=
  let q' := acknowledge (length workers) q in
  (map (fun worker => if is_alive worker then terminate worker else worker)
       workers,
   q').

(** ** The consuming loop shared by [_gather_instances] and [_iter_batches]

    [trace] is what the successive [queue.get()] calls return. The loop
    acknowledges a value after it has yielded it; the [Done] messages and
    an [Error] message stay unacknowledged. *)
Record FanIn (T : Type) : Type :=
  mkFanIn { fan_run : Run T; unacknowledged : nat; stderr : list string }.

Section FanIn.
Variable T : Type.
Variable num_workers : Z.

Fixpoint fan_in (trace : list (QueueMessage T)) (done_count : Z)
  : FanIn T :=
  if done_count <? num_workers then
    match trace with
    | [] => mkFanIn (mkRun [] Blocked) 0 []
    | Value x :: rest =>
        let f := fan_in rest done_count in
        mkFanIn (yield x (fan_run f)) (unacknowledged f) (stderr f)
    | Error e tb :: _ =>
        mkFanIn (mkRun [] (Raised (WorkerError e))) 1 [tb]
    | Done :: rest =>
        let f := fan_in rest (done_count + 1) in
        mkFanIn (fan_run f) (S (unacknowledged f)) (stderr f)
    end
  else mkFanIn (mkRun [] StopIteration) 0 [].
End FanIn.

(** How a worker body shows on the queue: its values, the text of the
    exception it died of, if any, and the end marker. *)
Definition worker_messages {T} (format_exc : PyError -> string)
    (body : Run T) : list (QueueMessage T) :=
  map (@Value T) (yielded body) ++
  match stop body with
  | StopIteration => [Done]
  | Raised e => [Error (str e) (format_exc e); Done]
  | Blocked => []
  end.

(** ** Collaborators

    What the loader takes from outside this file: the records and the
    vocabulary, the dataset reader, collation and device transfer, the two
    shuffles (which reorder what they read and raise nothing of their
    own), traceback formatting, [multiprocessing] (which start methods it
    has a context for, and whether the queue can be created and the
    workers started), and the operating system: in which
    order the messages of the workers reach the consumer, how many
    messages are still waiting on the queue when the consumer tears it
    down, and which processes are alive then. The last field is what
    becomes of the batches a suspended pass has still to yield when
    [index_with] changes the vocabulary and the cached records under it.

    The reader and the sampler are deterministic: asked again, they
    answer the same. The shuffles and the operating system are not; their
    fields stand for one outcome of the draws and of the scheduling, and
    no statement below relies on two calls seeing the same one. *)
Class Collaborators : Type := {
  Instance : Type;
  Vocabulary : Type;
  TensorDict : Type;
  (** [reader.read(data_path)] under the worker info set on the reader *)
  read : option WorkerInfo -> Source Instance;
  apply_token_indexers : Instance -> Instance;
  index_fields : Vocabulary -> Instance -> Instance;
  (** the name of a [TextField] of the record that carries token indexers *)
  indexed_text_field : Instance -> option string;
  collate_fn : list Instance -> bool -> TensorDict;
  move_to_device : TensorDict -> Device -> TensorDict;
  (** the records [shuffle_iterable] yields, given what it reads *)
  shuffle_iterable : Run Instance -> Z -> list Instance;
  random_shuffle : list Instance -> list Instance;
  format_exc : PyError -> string;
  instance_arrivals :
    list (list (QueueMessage Instance)) -> list (QueueMessage Instance);
  batch_arrivals :
    list (list (QueueMessage TensorDict)) -> list (QueueMessage TensorDict);
  in_flight : nat;
  alive_at_join : nat -> bool;
  (** the names [mp.get_context] finds in its table of contexts *)
  start_methods : list string;
  (** [multiprocessing.reduction.HAVE_SEND_HANDLE] *)
  have_send_handle : bool;
  (** [repr] of a string *)
  repr : string -> string;
  (** the text of the exception that [ctx.JoinableQueue()], or
      [ctx.JoinableQueue(maxsize=...)], and the start of the workers
      raise, if they raise *)
  start_failure : option Z -> option string;
  (** the batches a suspended pass yields instead of the pending ones once
      [index_with(vocab)] has been called *)
  rebatched : Vocabulary -> list TensorDict -> list TensorDict
}.

Section Loader.
Context {E : Collaborators}.

Record BatchSampler : Type := mkSampler {
  get_batch_indices : list Instance -> list (list Z);
  get_num_batches : list Instance -> Z
}.

(** The keyword arguments of [__init__]. *)
Record Config : Type := mkConfig {
  batch_size : option Z;
  drop_last : bool;
  shuffle : bool;
  batch_sampler : option BatchSampler;
  batches_per_epoch : option Z;
  num_workers : Z;
  max_instances_in_memory : option Z;
  start_method : string;
  pin_memory : bool;
  device : option Device
}.

Record MultiProcessDataLoader : Type := mkLoader {
  config :> Config;
  _max_instance_queue_size : option Z;
  _max_batch_queue_size : option Z;
  _instances : option (list Instance);
  _batch_generator : option (Generator TensorDict);
  _vocab : option Vocabulary
}.

Definition set_instances (self : MultiProcessDataLoader)
    (v : option (list Instance)) : MultiProcessDataLoader :=
  mkLoader self (_max_instance_queue_size self) (_max_batch_queue_size self)
           v (_batch_generator self) (_vocab self).

Definition set_batch_generator (self : MultiProcessDataLoader)
    (g : option (Generator TensorDict)) : MultiProcessDataLoader :=
  mkLoader self (_max_instance_queue_size self) (_max_batch_queue_size self)
           (_instances self) g (_vocab self).

Definition set_vocab (self : MultiProcessDataLoader)
    (v : option Vocabulary) : MultiProcessDataLoader :=
  mkLoader self (_max_instance_queue_size self) (_max_batch_queue_size self)
           (_instances self) (_batch_generator self) v.

(** [if self._instances:] *)
Definition cached (self : MultiProcessDataLoader) : bool :=
  match _instances self with
  | Some (_ :: _) => true
  | _ => false
  end.

(** *** Parameter validation *)

Definition raise_if (b : bool) (msg : string) (otherwise : option PyError)
  : option PyError :=
  if b then Some (ValueError msg) else otherwise.

Definition below (o : option Z) (bound : Z) : bool :=
  match o with Some x => x <? bound | None => false end.

Definition is_spawn (c : Config) : bool :=
  String.eqb (start_method c) "spawn".

(** [self.device is not None and self.device != torch.device("cpu")] *)
Definition off_cpu (c : Config) : bool :=
  match device c with Some d => negb (is_cpu d) | None => false end.

Definition validate_memory (c : Config) (otherwise : option PyError)
  : option PyError :=
  match max_instances_in_memory c with
  | Some m =>
      if match batch_size c with Some b => m <? b | None => false end
      then Some (ValueError "max_instances_in_memory must be at least batch_size")
      else raise_if (m <? 1)
             "max_instances_in_memory must be at least 1" otherwise
  | None => otherwise
  end.

Definition validate_sampler (c : Config) (otherwise : option PyError)
  : option PyError :=
  match batch_sampler c with
  | Some _ =>
      raise_if (is_some (batch_size c))
        "batch_sampler option is mutually exclusive with batch_size"
        (raise_if (drop_last c)
           "batch_sampler option is mutually exclusive with drop_last"
           (raise_if (shuffle c)
              "batch_sampler option is mutually exclusive with shuffle"
              otherwise))
  | None =>
      raise_if (is_none (batch_size c))
        "batch_size is required when batch_sampler is not supplied"
        otherwise
  end.

(** The checks of [__init__], in the order of the source. *)
Definition validate (c : Config) : option PyError :=
  raise_if (num_workers c <? 0) "num_workers cannot be a negative number"
  (raise_if (below (batch_size c) 1) "batch_size must be at least 1"
  (validate_sampler c
  (raise_if (below (batches_per_epoch c) 1)
     "batches_per_epoch must be at least 1"
  (validate_memory c
  (raise_if (pin_memory c && (0 <? num_workers c) && negb (is_spawn c))
     "start_method must be set to 'spawn' when using memory pinning"
  (raise_if (off_cpu c && negb (num_workers c =? 0) && negb (is_spawn c))
     "start_method must be set to 'spawn' for data loader to put tensors onto a CUDA device"
     None)))))).

(** *** Building batches *)

Definition _index_instance (self : MultiProcessDataLoader)
    (instance : Instance) : Result Instance :=
  let instance := apply_token_indexers instance in
  match _vocab self with
  | None => Raise AssertionError
  | Some vocab => Ok (index_fields vocab instance)
  end.

(** The window of [_instances_to_batches] when [max_instances_in_memory]
    is [m]. *)
Definition window_size (self : MultiProcessDataLoader) (m : Z) : Z :=
  let w := Z.max 1 (m / Z.max (num_workers self) 1) in
  match batch_size self with
  | Some b => if (1 <? w) && (1 <? b) then (w + b - 1) / b * b else w
  | None => w
  end.

Definition instance_chunks (self : MultiProcessDataLoader)
    (instance_iterator : Run Instance) : Run (list Instance) :=
  match max_instances_in_memory self with
  | Some m =>
      let w := window_size self m in
      lazy_groups_of_run
        (if shuffle self
         then mkRun (shuffle_iterable instance_iterator w)
                    (stop instance_iterator)
         else instance_iterator)
        w
  | None =>
      match stop instance_iterator with
      | StopIteration =>
          let chunk := yielded instance_iterator in
          mkRun [if shuffle self then random_shuffle chunk else chunk]
                StopIteration
      | s => mkRun [] s
      end
  end.

(** [collate_fn], then [move_to_device] when a device is set. *)
Definition tensorize (self : MultiProcessDataLoader)
    (batch : list Instance) : TensorDict :=
  let tensor_dict := collate_fn batch (pin_memory self) in
  match device self with
  | Some d => move_to_device tensor_dict d
  | None => tensor_dict
  end.

(** The groups of one window: the sampler's index groups, looked up in
    the window, or contiguous groups of [batch_size] records. Without a
    batch size [islice] takes the whole window (a configuration that
    [__init__] refuses). *)
Definition window_groups (self : MultiProcessDataLoader)
    (instances : list Instance) : Run (list Instance) :=
  match batch_sampler self with
  | Some sampler =>
      map_until
        (fun batch_indices =>
           match getitems instances batch_indices with
           | Some batch => Ok batch
           | None => Raise (IndexError "list index out of range")
           end)
        (get_batch_indices sampler instances) StopIteration
  | None =>
      match batch_size self with
      | Some b => mkRun (lazy_groups_of instances b) StopIteration
      | None =>
          mkRun (match instances with [] => [] | _ => [instances] end)
                StopIteration
      end
  end.

(** [len(batch) < self.batch_size] behind its two guards. *)
Definition undersized (self : MultiProcessDataLoader)
    (batch : list Instance) : Result bool :=
  if is_none (batch_sampler self) && drop_last self then
    match batch_size self with
    | Some b => Ok (Z.of_nat (length batch) <? b)
    | None => Raise TypeError
    end
  else Ok false.

(** [for batch in batches: ...], with its [break]. *)
Fixpoint batches_loop (self : MultiProcessDataLoader)
    (batches : list (list Instance)) (s : Stop) : Run TensorDict :=
  match batches with
  | [] => mkRun [] s
  | batch :: rest =>
      match undersized self batch with
      | Ok true => mkRun [] StopIteration
      | Ok false => yield (tensorize self batch) (batches_loop self rest s)
      | Raise e => mkRun [] (Raised e)
      | Hang => mkRun [] Blocked
      end
  end.

Definition window_batches (self : MultiProcessDataLoader)
    (instances : list Instance) : Run TensorDict :=
  let batches := window_groups self instances in
  batches_loop self (yielded batches) (stop batches).

(** [for instances in instance_chunks: ...] *)
Fixpoint chunks_loop (self : MultiProcessDataLoader)
    (chunks : list (list Instance)) (s : Stop) : Run TensorDict :=
  match chunks with
  | [] => mkRun [] s
  | instances :: rest =>
      run_then (window_batches self instances) (chunks_loop self rest s)
  end.

Definition _instances_to_batches (self : MultiProcessDataLoader)
    (instance_iterator : Run Instance) : Run TensorDict :=
  let instance_iterator :=
    map_until (_index_instance self) (yielded instance_iterator)
              (stop instance_iterator) in
  let chunks := instance_chunks self instance_iterator in
  chunks_loop self (yielded chunks) (stop chunks).

(** *** Workers *)

Definition token_indexers_msg (field_name : string) : string :=
  ("Found a TextField (" ++ field_name ++
  ") with token_indexers already applied, but you're using num_workers > 0 in your data loader. Make sure your dataset reader's text_to_instance() method doesn't add any token_indexers to the TextFields it creates. The token_indexers should be added to the instances in apply_token_indexers() method of your dataset reader (which you'll have to implement if you haven't done so already).")%string.

Definition worker_info (self : MultiProcessDataLoader) (worker_id : Z)
  : option WorkerInfo :=
  Some (mkWorkerInfo (num_workers self) worker_id).

(** The [try] block of [_instance_worker]: what it puts on the queue and
    how it ends. Only the first record is inspected. *)
Definition instance_worker_body (self : MultiProcessDataLoader)
    (worker_id : Z) : Run Instance :=
  let instances := read (worker_info self worker_id) in
  match records instances with
  | [] => source_run instances
  | instance :: _ =>
      match indexed_text_field instance with
      | Some field_name =>
          mkRun [] (Raised (ValueError (token_indexers_msg field_name)))
      | None => source_run instances
      end
  end.

Definition _instance_worker (self : MultiProcessDataLoader)
    (worker_id : Z) : list (QueueMessage Instance) :=
  worker_messages format_exc (instance_worker_body self worker_id).

Definition batch_worker_body (self : MultiProcessDataLoader)
    (worker_id : Z) : Run TensorDict :=
  _instances_to_batches self (source_run (read (worker_info self worker_id))).

Definition _batch_worker (self : MultiProcessDataLoader)
    (worker_id : Z) : list (QueueMessage TensorDict) :=
  worker_messages format_exc (batch_worker_body self worker_id).

(** [range(self.num_workers)] *)
Definition worker_ids (self : MultiProcessDataLoader) : list nat :=
  seq 0 (Z.to_nat (num_workers self)).

(** The processes of [_start_instance_workers] and
    [_start_batch_workers], as [_join_workers] finds them. *)
Definition started_workers (self : MultiProcessDataLoader)
  : list BaseProcess :=
  map (fun worker_id => mkProcess worker_id (alive_at_join worker_id) false)
      (worker_ids self).

(** The queue as the [finally] clause of the two consuming paths finds
    it: it still counts the messages the loop received without
    acknowledging them and the ones it never received. *)
Definition left_on_queue (unacked : nat) : JoinableQueue :=
  mkQueue (in_flight + unacked) false.

(** The [finally] clause: the queue is closed and the workers are
    joined. *)
Definition teardown (self : MultiProcessDataLoader) (unacked : nat)
  : list BaseProcess * JoinableQueue :=
  _join_workers (started_workers self) (close (left_on_queue unacked)).

(** *** Starting workers *)

(** [mp.get_context(method)]: the [ValueError] it raises, if any. A name
    that is not in the table of contexts is refused, and so is the fork
    server where handles cannot be passed between processes. *)
Definition get_context (method : string) : option PyError :=
  if existsb (String.eqb method) start_methods then
    if String.eqb method "forkserver" && negb have_send_handle
    then Some (ValueError "forkserver start method not available")
    else None
  else Some (ValueError ("cannot find context for " ++ repr method)%string).

(** What both multi-worker paths do before they enter their [try]:
    [mp.get_context(self.start_method)], the creation of the queue with
    the bound kept in the loader, and the start of the workers. An
    exception raised here leaves before there is anything to tear down. *)
Definition set_up (self : MultiProcessDataLoader) (maxsize : option Z)
  : option PyError :=
  match get_context (start_method self) with
  | Some e => Some e
  | None => option_map SetupError (start_failure maxsize)
  end.

(** *** Reading records *)

(** What both reading paths do to a record before they yield it:
    [apply_token_indexers], and [index_fields] once a vocabulary is
    there. *)
Definition prepare (self : MultiProcessDataLoader) (instance : Instance)
  : Instance :=
  let instance := apply_token_indexers instance in
  match _vocab self with
  | Some vocab => index_fields vocab instance
  | None => instance
  end.

Definition _gather_instances (self : MultiProcessDataLoader)
    (trace : list (QueueMessage Instance)) : FanIn Instance :=
  let f := fan_in (num_workers self) trace 0 in
  mkFanIn (mkRun (map (prepare self) (yielded (fan_run f)))
                 (stop (fan_run f)))
          (unacknowledged f) (stderr f).

(** A consumer that draws [k] items from a generator and then drops it
    never sees how it would have stopped. *)
Definition pulled {A} (demand : option nat) (r : Run A) : Run A :=
  match demand with
  | None => r
  | Some k =>
      if (k <=? length (yielded r))%nat
      then mkRun (firstn k (yielded r)) StopIteration
      else r
  end.

(** What the uncached branch of [iter_instances] yields when it is
    driven to its end. *)
Definition read_instances (self : MultiProcessDataLoader) : Run Instance :=
  if num_workers self <=? 0 then
    let instances := read None in
    mkRun (map (prepare self) (records instances))
          (stop (source_run instances))
  else
    match set_up self (_max_instance_queue_size self) with
    | Some e => mkRun [] (Raised e)
    | None =>
        fan_run
          (_gather_instances self
             (instance_arrivals
                (map (fun worker_id =>
                        _instance_worker self (Z.of_nat worker_id))
                     (worker_ids self))))
    end.

(** [iter_instances], drawn [demand] times ([None]: to its end). Every
    record that is yielded has been appended to the cache first when
    [max_instances_in_memory] is unset. *)
Definition iter_instances (self : MultiProcessDataLoader)
    (demand : option nat) : Run Instance * MultiProcessDataLoader :=
  match _instances self with
  | Some (instance :: rest) =>
      (pulled demand (mkRun (instance :: rest) StopIteration), self)
  | _ =>
      let r := pulled demand (read_instances self) in
      (r,
       if is_none (max_instances_in_memory self)
       then set_instances self (Some (yielded r))
       else self)
  end.

(** *** Iterating over batches *)

(** The [try] block of the multi-worker branch of [_iter_batches]: the
    consuming loop over what the batch workers send, and the teardown
    once the loop is left (it is never left when the loop blocks, and
    never entered when the set-up raised). *)
Definition batch_fan_in (self : MultiProcessDataLoader)
  : FanIn TensorDict :=
  fan_in (num_workers self)
    (batch_arrivals
       (map (fun worker_id => _batch_worker self (Z.of_nat worker_id))
            (worker_ids self)))
    0.

Definition batch_teardown (self : MultiProcessDataLoader)
  : option (list BaseProcess * JoinableQueue) :=
  let f := batch_fan_in self in
  match set_up self (_max_batch_queue_size self), stop (fan_run f) with
  | Some _, _ | None, Blocked => None
  | None, _ => Some (teardown self (unacknowledged f))
  end.

(** The cached records are shared with the batch builder, which indexes
    them in place: all of them, or, without a vocabulary, the first one
    up to the failing assertion. *)
Definition indexed_in_place (self : MultiProcessDataLoader)
    (instances : list Instance) : list Instance :=
  match _vocab self with
  | Some vocab =>
      map (fun i => index_fields vocab (apply_token_indexers i)) instances
  | None =>
      match instances with
      | [] => []
      | instance :: rest => apply_token_indexers instance :: rest
      end
  end.

(** One pass of [_iter_batches], with the loader as the pass leaves it.
    Without a vocabulary the builder fails on the first record it draws,
    so it draws one record only. *)
Definition _iter_batches (self : MultiProcessDataLoader)
  : Run TensorDict * MultiProcessDataLoader :=
  if is_some (_instances self) || (num_workers self <=? 0) then
    let demand :=
      match _vocab self with None => Some 1%nat | Some _ => None end in
    let '(instances, self1) := iter_instances self demand in
    (_instances_to_batches self instances,
     set_instances self1
       (option_map (indexed_in_place self) (_instances self1)))
  else
    match set_up self (_max_batch_queue_size self) with
    | Some e => (mkRun [] (Raised e), self)
    | None => (fan_run (batch_fan_in self), self)
    end.

Definition next_batch (self : MultiProcessDataLoader)
    (g : Generator TensorDict)
  : Next TensorDict * Generator TensorDict * MultiProcessDataLoader :=
  let '(r, self1) :=
    match g with
    | Fresh => _iter_batches self
    | Resumed r => (r, self)
    end in
  match yielded r with
  | batch :: rest => (Item batch, Resumed (mkRun rest (stop r)), self1)
  | [] =>
      (Stopped (stop r),
       Resumed (mkRun [] (match stop r with
                          | Blocked => Blocked
                          | _ => StopIteration
                          end)),
       self1)
  end.

Definition not_indexed_msg : string :=
  "This DataLoader has not been indexed with a Vocabulary yet. Did you forget to call DataLoader.index_with(vocab)?".

Definition leave (s : Stop) (self : MultiProcessDataLoader)
    (g : Generator TensorDict) : Run TensorDict * MultiProcessDataLoader :=
  (mkRun [] s, set_batch_generator self (Some g)).

Definition and_then (batch : TensorDict)
    (rest : Run TensorDict * MultiProcessDataLoader)
  : Run TensorDict * MultiProcessDataLoader :=
  (yield batch (fst rest), snd rest).

(** [for i in range(self.batches_per_epoch): ...] with the generator
    held in [self._batch_generator]. A [StopIteration] that escapes the
    handler leaves the generator body and becomes a [RuntimeError]. *)
Fixpoint epoch (rounds : nat) (self : MultiProcessDataLoader)
    (g : Generator TensorDict) : Run TensorDict * MultiProcessDataLoader :=
  match rounds with
  | O => leave StopIteration self g
  | S rounds' =>
      match next_batch self g with
      | (Item batch, g1, self1) => and_then batch (epoch rounds' self1 g1)
      | (Stopped StopIteration, _, self1) =>
          match next_batch self1 Fresh with
          | (Item batch, g2, self2) =>
              and_then batch (epoch rounds' self2 g2)
          | (Stopped StopIteration, g2, self2) =>
              leave (Raised (RuntimeError "generator raised StopIteration"))
                    self2 g2
          | (Stopped s, g2, self2) => leave s self2 g2
          end
      | (Stopped s, g1, self1) => leave s self1 g1
      end
  end.

Definition __iter__ (self : MultiProcessDataLoader)
  : Run TensorDict * MultiProcessDataLoader :=
  match _vocab self with
  | None => (mkRun [] (Raised (ValueError not_indexed_msg)), self)
  | Some _ =>
      match batches_per_epoch self with
      | None => _iter_batches self
      | Some n =>
          epoch (Z.to_nat n) self
                (match _batch_generator self with
                 | None => Fresh
                 | Some g => g
                 end)
      end
  end.

(** *** Length, indexing, construction *)

Definition __len__ (self : MultiProcessDataLoader)
  : Result Z * MultiProcessDataLoader :=
  match batches_per_epoch self with
  | Some n => (Ok n, self)
  | None =>
      match max_instances_in_memory self with
      | None =>
          let '(r, self1) :=
            if cached self then (mkRun [] StopIteration, self)
            else iter_instances self None in
          match stop r with
          | Raised e => (Raise e, self1)
          | Blocked => (Hang, self1)
          | StopIteration =>
              match _instances self1, batch_sampler self with
              | None, _ => (Raise TypeError, self1)
              | Some instances, Some sampler =>
                  (Ok (get_num_batches sampler instances), self1)
              | Some instances, None =>
                  let num_instances := Z.of_nat (length instances) in
                  match batch_size self with
                  | None => (Raise TypeError, self1)
                  | Some 0 => (Raise ZeroDivisionError, self1)
                  | Some batch_size =>
                      if drop_last self
                         || (num_instances mod batch_size =? 0)
                      then (Ok (num_instances / batch_size), self1)
                      else (Ok (1 + num_instances / batch_size), self1)
                  end
              end
          end
      | Some _ => (Raise TypeError, self)
      end
  end.

(** A pass that is suspended in [_batch_generator] reads the vocabulary
    and the cached records when it goes on: from [index_with] on it
    yields other batches than the pending ones, and ends as it would
    have. *)
Definition reindexed (vocab : Vocabulary) (g : Generator TensorDict)
  : Generator TensorDict :=
  match g with
  | Fresh => Fresh
  | Resumed r => Resumed (mkRun (rebatched vocab (yielded r)) (stop r))
  end.

Definition index_with (self : MultiProcessDataLoader) (vocab : Vocabulary)
  : MultiProcessDataLoader :=
  set_batch_generator
    (set_instances (set_vocab self (Some vocab))
                   (option_map (map (index_fields vocab)) (_instances self)))
    (option_map (reindexed vocab) (_batch_generator self)).

(** [batch_size or 1] *)
Definition or_one (o : option Z) : Z :=
  match o with
  | Some 0 | None => 1
  | Some b => b
  end.

(** The attributes as [__init__] sets them before it reads anything. *)
Definition initial (c : Config) : MultiProcessDataLoader :=
  mkLoader c
    (option_map (fun m => m * 4) (max_instances_in_memory c))
    (option_map (fun m => 4 * m / or_one (batch_size c))
                (max_instances_in_memory c))
    None None None.

Definition __init__ (c : Config) : Result MultiProcessDataLoader :=
  match validate c with
  | Some e => Raise e
  | None =>
      let self := initial c in
      if is_none (max_instances_in_memory c) then
        let '(r, self1) := iter_instances self None in
        match stop r with
        | StopIteration => Ok self1
        | Raised e => Raise e
        | Blocked => Hang
        end
      else Ok self
  end.
End Loader.

(** ** A small concrete setting

    Records are numbered; they remember whether their token indexers were
    applied and whether they were indexed. A batch is the list of its
    records. Workers are served one after the other; the three start
    methods of a Unix system are there, and queues and workers start
    without failure. *)
Module Toy.
Record Item : Type := mkItem { ident : nat; tokens : bool; indexed : bool }.

Definition raw (n : nat) : Item := mkItem n false false.

Definition ready (n : nat) : Item := mkItem n true true.

Definition env (src : option WorkerInfo -> Source Item) (flight : nat)
    (alive : nat -> bool) : Collaborators :=
  {| Instance := Item;
     Vocabulary := unit;
     TensorDict := list Item;
     read := src;
     apply_token_indexers := fun i => mkItem (ident i) true (indexed i);
     index_fields := fun _ i => mkItem (ident i) (tokens i) true;
     indexed_text_field := fun _ => None;
     collate_fn := fun batch _ => batch;
     move_to_device := fun t _ => t;
     shuffle_iterable := fun r _ => yielded r;
     random_shuffle := fun l => l;
     format_exc := fun _ => "Traceback (most recent call last): ...";
     instance_arrivals := @concat _;
     batch_arrivals := @concat _;
     in_flight := flight;
     alive_at_join := alive;
     start_methods := ["fork"; "spawn"; "forkserver"];
     have_send_handle := true;
     repr := fun s => ("'" ++ s ++ "'")%string;
     start_failure := fun _ => None;
     rebatched :=
       fun _ => map (map (fun i => mkItem (ident i) (tokens i) true)) |}.

(** A reader that yields the records [0 .. n-1], whoever asks. *)
Definition numbered (n : nat) : option WorkerInfo -> Source Item :=
  fun _ => mkSource (map raw (seq 0 n)) None.

Definition plain (n : nat) : Collaborators :=
  env (numbered n) 0 (fun _ => true).

(** [MultiProcessDataLoader(reader, path, batch_size=b)] and friends. *)
Definition config (E : Collaborators) (b : option Z) (drop : bool)
    (per_epoch : option Z) (workers : Z) (memory : option Z)
  : @Config E :=
  mkConfig b drop false None per_epoch workers memory "fork" false None.
End Toy.

(** * The vocabulary of the properties *)

Unset Implicit Arguments.

(** ** Queue traffic *)

(** [Value* Error? Done]: values, then at most one error, then the end
    marker and nothing after it. *)
Definition follows_protocol {T} (msgs : list (QueueMessage T)) : Prop :=
  exists values,
    msgs = map (@Value T) values ++ [Done]
    \/ exists e tb, msgs = map (@Value T) values ++ [Error e tb; Done].

(** The payloads of the [Value] messages, and the number of [Done]
    messages, of a stretch of the queue. *)
Fixpoint values_of {T} (msgs : list (QueueMessage T)) : list T :=
  match msgs with
  | [] => []
  | Value x :: rest => x :: values_of rest
  | _ :: rest => values_of rest
  end.

Fixpoint dones_of {T} (msgs : list (QueueMessage T)) : nat :=
  match msgs with
  | [] => O
  | Done :: rest => S (dones_of rest)
  | _ :: rest => dones_of rest
  end.

Definition is_error {T} (m : QueueMessage T) : bool :=
  match m with Error _ _ => true | _ => false end.

(** The [task_done] calls of a teardown that finds [before] and leaves
    [after]. *)
Definition acknowledgments (before after : JoinableQueue) : nat :=
  (unfinished_tasks before - unfinished_tasks after)%nat.

(** [merged] is made of the elements of [streams], each stream in its own
    order: what a queue fed by several producers delivers. *)
Inductive interleaving {A} : list (list A) -> list A -> Prop :=
| interleaving_done streams :
    Forall (fun s => s = []) streams -> interleaving streams []
| interleaving_next before x s after merged :
    interleaving (before ++ s :: after) merged ->
    interleaving (before ++ (x :: s) :: after) (x :: merged).

(** The number of streams that still hold a message. *)
Definition open_streams {A} (streams : list (list A)) : nat :=
  length (filter (fun s => match s with [] => false | _ => true end) streams).

(** What a worker has still to send, at any moment. *)
Definition rest_of_protocol {T} (msgs : list (QueueMessage T)) : Prop :=
  msgs = [] \/ follows_protocol msgs.

(** The batches a kept generator has still to yield. *)
Definition pending_of {T} (g : Generator T) : list T :=
  match g with
  | Fresh => []
  | Resumed r => yielded r
  end.

(** ** Loaders *)

Section Notions.
Context {E : Collaborators}.
Implicit Types (self : MultiProcessDataLoader) (c : Config).

(** The batches of a run are the collations of [groups], each of which
    satisfies [P]. *)
Definition built_from self (P : list Instance -> Prop)
    (batches : list TensorDict) : Prop :=
  exists groups,
    batches = map (tensorize self) groups /\ Forall P groups.

(** The groups of a window, up to the first one that is shorter than [b]. *)
Fixpoint full_groups (b : Z) (groups : list (list Instance))
  : list (list Instance) :=
  match groups with
  | [] => []
  | batch :: rest =>
      if Z.of_nat (length batch) <? b then [] else batch :: full_groups b rest
  end.

(** What the pass over the cache does to a record that was read by
    [__init__] and indexed by [index_with]. *)
Definition twice_indexed (vocab : Vocabulary) (r : Instance) : Instance :=
  index_fields vocab
    (apply_token_indexers (index_fields vocab (apply_token_indexers r))).

(** The option combinations listed as invalid: a sampler together with
    [batch_size], [drop_last] or [shuffle]; neither a sampler nor a batch
    size; [batches_per_epoch] below one; [max_instances_in_memory] below
    the batch size, or below one when there is no batch size. *)
Definition listed_invalid c : bool :=
  (is_some (batch_sampler c)
   && (is_some (batch_size c) || drop_last c || shuffle c))
  || (is_none (batch_sampler c) && is_none (batch_size c))
  || below (batches_per_epoch c) 1
  || match max_instances_in_memory c, batch_size c with
     | Some m, Some b => m <? b
     | Some m, None => m <? 1
     | None, _ => false
     end.

(** All the combinations [__init__] refuses. *)
Definition invalid c : bool :=
  (num_workers c <? 0)
  || below (batch_size c) 1
  || listed_invalid c
  || (pin_memory c && (0 <? num_workers c) && negb (is_spawn c))
  || (off_cpu c && negb (num_workers c =? 0) && negb (is_spawn c)).

(** The errors of the set-up: the [ValueError] of [mp.get_context], or
    what creating the queue and starting the workers raised. *)
Definition setup_error (e : PyError) : Prop :=
  (exists method, get_context method = Some e) \/ exists msg, e = SetupError msg.

(** Reading the records ends normally, hangs, or fails with the error of
    the reader, of a worker or of the set-up. *)
Definition reading_stop (s : Stop) : Prop :=
  match s with
  | StopIteration | Blocked
  | Raised (SourceError _) | Raised (WorkerError _) => True
  | Raised e => setup_error e
  end.

(** The errors raised in the body of the batch builder. *)
Definition builder_error (s : Stop) : Prop :=
  s = Raised AssertionError \/ s = Raised TypeError
  \/ exists msg, s = Raised (IndexError msg).

(** How a pass can stop: by returning, by hanging, or with an error of the
    reader, of a worker, of the set-up or of the batch builder; never with
    the [ValueError] of a loader that was not indexed. *)
Definition pass_stop (s : Stop) : Prop :=
  match s with
  | Raised (ValueError msg) => msg <> not_indexed_msg
  | Raised (RuntimeError _) | Raised ZeroDivisionError => False
  | _ => True
  end.

(** Two states of a loader with the same options, vocabulary and queue
    bounds: what one pass builds depends on nothing else but the records
    it is given. *)
Definition same_settings self self' : Prop :=
  config self' = config self /\ _vocab self' = _vocab self
  /\ _max_instance_queue_size self' = _max_instance_queue_size self
  /\ _max_batch_queue_size self' = _max_batch_queue_size self.

(** What a call leaves of a loader: its options, its vocabulary, and a
    cache if there was one. *)
Definition evolves self self' : Prop :=
  same_settings self self'
  /\ (is_some (_instances self) = true -> is_some (_instances self') = true).

(** A generator kept between calls can only stop the way a pass does. *)
Definition generator_ok (g : Generator TensorDict) : Prop :=
  match g with
  | Fresh => True
  | Resumed r => pass_stop (stop r)
  end.

(** The generator kept in [_batch_generator], if any, is one of a pass. *)
Definition kept_ok self : Prop :=
  match _batch_generator self with
  | Some g => generator_ok g
  | None => True
  end.

(** The loaders that the public operations produce, starting from
    [__init__], each call being driven to its end (a call that hangs
    leaves no loader behind). *)
Inductive reachable : MultiProcessDataLoader -> Prop :=
| after_init c self :
    __init__ c = Ok self -> reachable self
| after_index_with self vocab :
    reachable self -> reachable (index_with self vocab)
| after_iter self :
    reachable self -> stop (fst (__iter__ self)) <> Blocked ->
    reachable (snd (__iter__ self))
| after_len self :
    reachable self -> fst (__len__ self) <> Hang ->
    reachable (snd (__len__ self)).

(** What holds of them: the options passed validation, a kept generator
    stops the way a pass does, and without [max_instances_in_memory] there
    is a cache and reading the records comes to its end. *)
Definition sound self : Prop :=
  validate self = None
  /\ kept_ok self
  /\ (max_instances_in_memory self = None ->
      is_some (_instances self) = true
      /\ stop (read_instances self) = StopIteration).

(** Indexing a record that went through indexing already changes
    nothing. *)
Definition indexing_idempotent : Prop :=
  forall vocab i,
    index_fields vocab
      (apply_token_indexers (index_fields vocab (apply_token_indexers i)))
    = index_fields vocab (apply_token_indexers i).

(** A kept generator that, once its pending batches are drawn, returns. *)
Definition pending_normal (g : Generator TensorDict) : Prop :=
  match g with
  | Fresh => True
  | Resumed r => stop r = StopIteration
  end.

Definition kept_normal self : Prop :=
  match _batch_generator self with
  | Some g => pending_normal g
  | None => True
  end.

(** The groups a window contributes in batch-size mode. *)
Definition kept_groups self (b : Z) (instances : list Instance)
  : list (list Instance) :=
  if drop_last self then full_groups b (lazy_groups_of instances b)
  else lazy_groups_of instances b.

(** A loader that streams: [max_instances_in_memory] is set and no
    record is held. *)
Definition streams self : Prop :=
  max_instances_in_memory self <> None /\ _instances self = None.

(** The cache holds [k] records. *)
Definition holds (k : nat) self : Prop :=
  exists l, _instances self = Some l /\ length l = k.

(** The batches that the generator kept in [_batch_generator] has still
    to yield. *)
Definition pending_batches self : list TensorDict :=
  match _batch_generator self with
  | Some g => pending_of g
  | None => []
  end.
End Notions.

(** ** Concrete loaders

    Loaders in the small setting, on which the hypotheses of the theorems
    below hold, and inputs on which stronger statements fail. *)

(** [MultiProcessDataLoader(...)] followed by [index_with(vocab)]. *)
Definition indexed_loader (E : Collaborators) (c : @Config E)
    (vocab : @Vocabulary E) : @MultiProcessDataLoader E :=
  match __init__ c with
  | Ok self => index_with self vocab
  | _ => initial c
  end.

(** Eleven records, batches of four, the last short batch dropped. *)
Definition eleven_dropping : @MultiProcessDataLoader (Toy.plain 11) :=
  indexed_loader (Toy.plain 11)
    (Toy.config (Toy.plain 11) (Some 4) true None 0 None) tt.

(** Eleven records, batches of four, [per_epoch] batches a call. *)
Definition eleven_cycling (per_epoch : Z)
  : @MultiProcessDataLoader (Toy.plain 11) :=
  indexed_loader (Toy.plain 11)
    (Toy.config (Toy.plain 11) (Some 4) false (Some per_epoch) 0 None) tt.

(** Three records only: with [drop_last] a pass builds no batch. *)
Definition three_dropping : @MultiProcessDataLoader (Toy.plain 3) :=
  indexed_loader (Toy.plain 3)
    (Toy.config (Toy.plain 3) (Some 4) true (Some 5) 0 None) tt.

(** A reader that fails on its third record, for every worker; when the
    consumer tears the queue down, four messages are still waiting. *)
Definition fails_on_third : Collaborators :=
  Toy.env (fun _ => mkSource [Toy.raw 0; Toy.raw 1] (Some "boom")) 4
          (fun _ => true).

Definition two_workers : @MultiProcessDataLoader fails_on_third :=
  index_with
    (initial (Toy.config fails_on_third (Some 2) false None 2 (Some 4))) tt.



(** The loaders that differ from [eleven_cycling 5] in the kept generator
    only. *)
Definition cycling (s : @MultiProcessDataLoader (Toy.plain 11)) : Prop :=
  set_batch_generator s None = eleven_cycling 5.

(** Eleven records, batches of four, the short batch kept. *)
Definition eleven_keeping : @MultiProcessDataLoader (Toy.plain 11) :=
  indexed_loader (Toy.plain 11)
    (Toy.config (Toy.plain 11) (Some 4) false None 0 None) tt.

(** Eleven records read through windows: six records allowed in memory
    make windows of eight, two batches of four. *)
Definition eleven_windowed : @MultiProcessDataLoader (Toy.plain 11) :=
  indexed_loader (Toy.plain 11)
    (Toy.config (Toy.plain 11) (Some 4) true None 0 (Some 6)) tt.

(** A sampler that asks for the first and the last record, then for the
    third one. *)
Definition picking : @MultiProcessDataLoader (Toy.plain 11) :=
  indexed_loader (Toy.plain 11)
    (mkConfig None false false
       (Some (@mkSampler (Toy.plain 11) (fun _ => [[0; -1]; [2]]) (fun _ => 2)))
       None 0 None "fork" false None)
    tt.

(** A reader that gives every worker four records of its own, and all
    eight to a reader outside a worker; when the workers are joined, the
    first one has exited and the second one has not. *)
Definition shards : Collaborators :=
  Toy.env (fun info =>
             match info with
             | Some (mkWorkerInfo _ worker_id) =>
                 mkSource (map Toy.raw (seq (4 * Z.to_nat worker_id) 4)) None
             | None => mkSource (map Toy.raw (seq 0 8)) None
             end)
          0 (fun worker_id => Nat.eqb worker_id 1).

Definition two_shards : @MultiProcessDataLoader shards :=
  index_with (initial (Toy.config shards (Some 2) false None 2 (Some 4))) tt.

(** The three batches of a pass of [eleven_cycling]. *)
Definition three_batches : list (list Toy.Item) :=
  [map Toy.ready [0; 1; 2; 3]%nat; map Toy.ready [4; 5; 6; 7]%nat;
   map Toy.ready [8; 9; 10]%nat].

(** A setting of eleven records where a shuffle reverses what it is
    given, and [shuffle_iterable] loses everything when the stream it
    reads fails. *)
Definition reversing : Collaborators :=
  {| Instance := Toy.Item;
     Vocabulary := unit;
     TensorDict := list Toy.Item;
     read := Toy.numbered 11;
     apply_token_indexers :=
       fun i => Toy.mkItem (Toy.ident i) true (Toy.indexed i);
     index_fields := fun _ i => Toy.mkItem (Toy.ident i) (Toy.tokens i) true;
     indexed_text_field := fun _ => None;
     collate_fn := fun batch _ => batch;
     move_to_device := fun t _ => t;
     shuffle_iterable :=
       fun r _ =>
         match stop r with
         | StopIteration => rev (yielded r)
         | _ => []
         end;
     random_shuffle := @rev Toy.Item;
     format_exc := fun _ => "Traceback (most recent call last): ...";
     instance_arrivals := @concat _;
     batch_arrivals := @concat _;
     in_flight := 0;
     alive_at_join := fun _ => true;
     start_methods := ["fork"; "spawn"; "forkserver"];
     have_send_handle := true;
     repr := fun s => ("'" ++ s ++ "'")%string;
     start_failure := fun _ => None;
     rebatched :=
       fun _ =>
         map (map (fun i => Toy.mkItem (Toy.ident i) (Toy.tokens i) true)) |}.

(** Eleven records, shuffled, batches of four. *)
Definition eleven_shuffled : @MultiProcessDataLoader reversing :=
  indexed_loader reversing
    (mkConfig (Some 4) false true None None 0 None "fork" false None) tt.

(** * Properties *)

(** ** Groups *)

Section GroupFacts.
Variable A : Type.
Implicit Types (l : list A) (n fuel : nat).

Lemma groups_of_bounded fuel : forall l n g,
  In g (groups_of fuel l n) -> (0 < length g <= n)%nat.
Proof.
  induction fuel as [|fuel IH]; intros l n g; cbn [groups_of].
  - intros [].
  - destruct (firstn n l) as [|x s] eqn:Hs; [intros []|].
    intros [<-|Hin]; [|eauto].
    split; [cbn; lia|].
    rewrite <- Hs, length_firstn. lia.
Qed.

(** With enough fuel the groups are a partition of the list. *)
Lemma groups_of_concat fuel : forall l n,
  (0 < n)%nat -> (length l <= fuel)%nat ->
  concat (groups_of fuel l n) = l.
Proof.
  induction fuel as [|fuel IH]; intros l n Hn Hfuel; cbn [groups_of].
  - destruct l; [reflexivity|cbn in Hfuel; lia].
  - destruct (firstn n l) as [|x s] eqn:Hs.
    + destruct l as [|y l]; [reflexivity|].
      destruct n; [lia|discriminate].
    + cbn [concat]. rewrite IH; [|assumption|].
      * rewrite <- Hs. apply firstn_skipn.
      * rewrite length_skipn.
        destruct l as [|y l]; [destruct n; discriminate|].
        cbn [length] in *. lia.
Qed.

(** Every group but the last one is full. *)
Lemma groups_of_full fuel : forall l n s rest,
  groups_of fuel l n = s :: rest -> rest <> [] -> length s = n.
Proof.
  destruct fuel as [|fuel]; intros l n s rest; cbn [groups_of];
    [discriminate|].
  destruct (firstn n l) as [|x s'] eqn:Hs; [discriminate|].
  intros [= <- <-] Hrest.
  rewrite <- Hs, length_firstn.
  destruct (Nat.le_gt_cases n (length l)) as [|Hlt]; [lia|].
  exfalso. apply Hrest.
  rewrite skipn_all2 by lia.
  destruct fuel; cbn [groups_of]; [reflexivity|].
  now rewrite firstn_nil.
Qed.

Lemma lazy_groups_of_bounded l (group_size : Z) g :
  In g (lazy_groups_of l group_size) ->
  0 < Z.of_nat (length g) <= group_size.
Proof.
  unfold lazy_groups_of. intros Hin.
  apply groups_of_bounded in Hin. lia.
Qed.

Lemma lazy_groups_of_concat l (group_size : Z) :
  1 <= group_size -> concat (lazy_groups_of l group_size) = l.
Proof.
  intros H. unfold lazy_groups_of.
  apply groups_of_concat; lia.
Qed.
End GroupFacts.

(** ** Runs *)

Lemma yielded_run_then {A} (r k : Run A) :
  yielded (run_then r k) = yielded r
  \/ (stop r = StopIteration /\ yielded (run_then r k) = yielded r ++ yielded k).
Proof.
  unfold run_then. destruct (stop r); cbn; auto.
Qed.

Lemma stop_map_until {A B} (f : A -> Result B) xs s :
  (forall x, f x <> Hang) ->
  stop (map_until f xs s) = s
  \/ exists x e, In x xs /\ f x = Raise e /\ stop (map_until f xs s) = Raised e.
Proof.
  intros Hf. induction xs as [|x xs IH]; cbn; [now left|].
  destruct (f x) as [y|e|] eqn:Hx.
  - cbn. destruct IH as [->|(x' & e & Hin & Hx' & ->)]; [now left|].
    right. exists x', e. auto.
  - right. exists x, e. auto.
  - now apply Hf in Hx.
Qed.

(** ** The batch builder *)

Section Builder.
Context {E : Collaborators}.
Implicit Types (self : MultiProcessDataLoader) (batch : list Instance).

Lemma built_from_nil self P : built_from self P [].
Proof. exists []. split; [reflexivity|constructor]. Qed.

Lemma built_from_cons self (P : list Instance -> Prop) batch batches :
  P batch -> built_from self P batches ->
  built_from self P (tensorize self batch :: batches).
Proof.
  intros Hb (groups & -> & Hall). exists (batch :: groups).
  split; [reflexivity|now constructor].
Qed.

Lemma built_from_app self P xs ys :
  built_from self P xs -> built_from self P ys -> built_from self P (xs ++ ys).
Proof.
  intros (gx & -> & Hx) (gy & -> & Hy). exists (gx ++ gy).
  split; [now rewrite map_app|now apply Forall_app].
Qed.

Lemma batches_loop_built self (Q : list Instance -> Prop) batches s :
  Forall Q batches ->
  built_from self (fun batch => Q batch /\ undersized self batch = Ok false)
             (yielded (batches_loop self batches s)).
Proof.
  induction 1 as [|batch batches Hb _ IH]; cbn [batches_loop].
  - apply built_from_nil.
  - destruct (undersized self batch) as [[|]| |] eqn:Hu; cbn;
      try apply built_from_nil.
    apply built_from_cons; auto.
Qed.

Lemma chunks_loop_built self P chunks s :
  (forall instances, built_from self P (yielded (window_batches self instances))) ->
  built_from self P (yielded (chunks_loop self chunks s)).
Proof.
  intros Hw. induction chunks as [|instances chunks IH]; cbn [chunks_loop].
  - apply built_from_nil.
  - destruct (yielded_run_then (window_batches self instances)
                               (chunks_loop self chunks s)) as [->|[_ ->]].
    + apply Hw.
    + apply built_from_app; [apply Hw|apply IH].
Qed.

Lemma batches_loop_drop_last self b groups s :
  batch_sampler self = None -> batch_size self = Some b ->
  drop_last self = true ->
  yielded (batches_loop self groups s)
  = map (tensorize self) (full_groups b groups).
Proof.
  intros Hs Hb Hd. induction groups as [|batch rest IH];
    cbn [batches_loop full_groups]; [reflexivity|].
  unfold undersized. rewrite Hs, Hb, Hd. cbn.
  destruct (Z.of_nat (length batch) <? b); cbn; [reflexivity|].
  now rewrite IH.
Qed.

Lemma batches_loop_keep_last self groups s :
  drop_last self = false ->
  yielded (batches_loop self groups s) = map (tensorize self) groups.
Proof.
  intros Hd. induction groups as [|batch rest IH];
    cbn [batches_loop]; [reflexivity|].
  unfold undersized. rewrite Hd, andb_false_r. cbn.
  now rewrite IH.
Qed.

(** C10. In batch-size mode every batch the builder yields is the
    collation of between one and [batch_size] records, and of exactly
    [batch_size] records when [drop_last] is set; the loop over the groups
    of a window stops at the first group that is too short, so what a
    window contributes are its groups up to that one. *)
Theorem batches_respect_batch_size self (instance_iterator : Run Instance) b :
  batch_sampler self = None ->
  batch_size self = Some b ->
  built_from self
    (fun batch =>
       0 < Z.of_nat (length batch) <= b
       /\ (drop_last self = true -> Z.of_nat (length batch) = b))
    (yielded (_instances_to_batches self instance_iterator))
  /\ (drop_last self = true ->
      forall instances,
        yielded (window_batches self instances)
        = map (tensorize self) (full_groups b (lazy_groups_of instances b))).
Proof.
  intros Hs Hb. split.
  - unfold _instances_to_batches. apply chunks_loop_built.
    intros instances. unfold window_batches, window_groups.
    rewrite Hs, Hb. cbn [yielded stop].
    destruct (batches_loop_built self
                (fun batch => 0 < Z.of_nat (length batch) <= b)
                (lazy_groups_of instances b) StopIteration)
      as (groups & Heq & Hall).
    { apply Forall_forall. intros g. apply lazy_groups_of_bounded. }
    exists groups. split; [exact Heq|].
    eapply Forall_impl; [|exact Hall].
    cbn. intros batch [Hlen Hu]. split; [exact Hlen|].
    intros Hd. unfold undersized in Hu. rewrite Hs, Hb, Hd in Hu. cbn in Hu.
    injection Hu as Hu. apply Z.ltb_ge in Hu. lia.
  - intros Hd instances. unfold window_batches, window_groups.
    rewrite Hs, Hb. cbn [yielded stop].
    now apply batches_loop_drop_last.
Qed.

(** C5. With [max_instances_in_memory=4], [batch_size=4] and
    [num_workers=3], a configuration [__init__] accepts, the window is one
    record wide: it is not rounded up to the batch size, because the
    rounding is skipped when the share of a worker is a single record.
    With [drop_last] every group is then too short, and a batch worker
    that reads eleven records builds no batch at all. *)
Theorem window_of_one_is_not_rounded
    (vocab : Vocabulary) (r0 r1 r2 r3 r4 r5 r6 r7 r8 r9 r10 : Instance) :
  let c := mkConfig (Some 4) true false None None 3 (Some 4) "fork" false None in
  exists self,
    __init__ c = Ok self
    /\ window_size self 4 = 1
    /\ 1 mod 4 <> 0
    /\ _instances_to_batches (index_with self vocab)
         (mkRun [r0; r1; r2; r3; r4; r5; r6; r7; r8; r9; r10] StopIteration)
       = mkRun [] StopIteration.
Proof.
  intros c. eexists. split; [reflexivity|].
  split; [reflexivity|]. split; [discriminate|]. reflexivity.
Qed.

(** When the share of a worker is more than one record and the batch
    size more than one, the window is that share rounded up to a multiple
    of the batch size. *)
Lemma window_size_rounded self m b :
  batch_size self = Some b -> 1 < b ->
  1 < Z.max 1 (m / Z.max (num_workers self) 1) ->
  exists q,
    1 <= q /\ window_size self m = q * b
    /\ Z.max 1 (m / Z.max (num_workers self) 1) <= q * b
       < Z.max 1 (m / Z.max (num_workers self) 1) + b.
Proof.
  intros Hb Hb1 Hw. unfold window_size. rewrite Hb.
  set (w := Z.max 1 (m / Z.max (num_workers self) 1)) in *.
  assert (H1 : (1 <? w) = true) by now apply Z.ltb_lt.
  assert (H2 : (1 <? b) = true) by now apply Z.ltb_lt.
  rewrite H1, H2. cbn [andb].
  exists ((w + b - 1) / b).
  assert (Hpos : b <> 0) by lia.
  assert (Hpos' : 0 < b) by lia.
  pose proof (Z.div_mod (w + b - 1) b Hpos) as Hdm.
  pose proof (Z.mod_pos_bound (w + b - 1) b Hpos') as Hmod.
  assert (Hq : 1 <= (w + b - 1) / b) by (apply Z.div_le_lower_bound; lia).
  split; [exact Hq|]. split; [reflexivity|]. lia.
Qed.
End Builder.

(** ** Construction *)

Section Construction.
Context {E : Collaborators}.
Implicit Types (self : MultiProcessDataLoader) (c : Config).



Lemma validate_none_iff c : validate c = None <-> invalid c = false.
Proof.
  unfold validate, validate_sampler, validate_memory, invalid, listed_invalid,
    below, raise_if, is_some, is_none.
  destruct (num_workers c <? 0); [cbn; split; discriminate|].
  destruct (batch_size c) as [b|], (batch_sampler c) as [sampler|],
    (drop_last c), (shuffle c); cbn;
    try destruct (b <? 1) eqn:Hb; cbn; try (split; discriminate);
    (destruct (batches_per_epoch c) as [n|];
     [destruct (n <? 1); cbn; [split; discriminate|]|]);
    (destruct (max_instances_in_memory c) as [m|];
     [try destruct (m <? b) eqn:Hmb; cbn; try (split; discriminate);
      destruct (m <? 1) eqn:Hm; cbn; try (split; discriminate);
      try (apply Z.ltb_ge in Hb, Hmb; apply Z.ltb_lt in Hm; lia)|]);
    destruct (pin_memory c && (0 <? num_workers c) && negb (is_spawn c));
    cbn; try (split; discriminate);
    destruct (off_cpu c && negb (num_workers c =? 0) && negb (is_spawn c));
    cbn; split; (discriminate || reflexivity).
Qed.

Lemma stop_fan_in {T} n (trace : list (QueueMessage T)) : forall d,
  stop (fan_run (fan_in n trace d)) = StopIteration
  \/ stop (fan_run (fan_in n trace d)) = Blocked
  \/ exists e, stop (fan_run (fan_in n trace d)) = Raised (WorkerError e).
Proof.
  induction trace as [|m trace IH]; intros d; cbn [fan_in];
    destruct (d <? n); cbn; auto.
  destruct m as [x|e tb|]; cbn; eauto.
Qed.

Lemma get_context_value_error method e :
  get_context method = Some e ->
  exists msg, e = ValueError msg /\ msg <> not_indexed_msg.
Proof.
  unfold get_context.
  destruct (existsb (String.eqb method) start_methods);
    [destruct (String.eqb method "forkserver" && negb have_send_handle)|];
    intros [= <-]; eexists; (split; [reflexivity|discriminate]).
Qed.

Lemma set_up_error self maxsize e :
  set_up self maxsize = Some e -> setup_error e.
Proof.
  unfold set_up, setup_error.
  destruct (get_context (start_method self)) as [e'|] eqn:Hc.
  - intros [= <-]. left. now exists (start_method self).
  - destruct (start_failure maxsize) as [msg|]; [|discriminate].
    intros [= <-]. right. now exists msg.
Qed.

Lemma setup_error_reading_stop e : setup_error e -> reading_stop (Raised e).
Proof. intros H. destruct e; try exact I; exact H. Qed.

Lemma stop_read_instances self : reading_stop (stop (read_instances self)).
Proof.
  unfold read_instances. destruct (num_workers self <=? 0).
  - cbn. now destruct (failure (read None)).
  - destruct (set_up self (_max_instance_queue_size self)) as [e|] eqn:Hs.
    + apply setup_error_reading_stop. now apply set_up_error in Hs.
    + unfold _gather_instances. cbn [fan_run stop].
      match goal with
      | |- context [fan_in ?n ?t ?d] =>
          destruct (stop_fan_in n t d) as [->|[->|[e ->]]]
      end; exact I.
Qed.

Lemma iter_instances_all self :
  cached self = false ->
  iter_instances self None
  = (read_instances self,
     if is_none (max_instances_in_memory self)
     then set_instances self (Some (yielded (read_instances self)))
     else self).
Proof.
  unfold cached, iter_instances, pulled.
  destruct (_instances self) as [[|i l]|]; try discriminate; reflexivity.
Qed.

End Construction.

(** ** Workers and the consuming loop *)

Lemma worker_messages_protocol {T} fmt (body : Run T) :
  stop body <> Blocked -> follows_protocol (worker_messages fmt body).
Proof.
  intros Hb. unfold worker_messages, follows_protocol.
  exists (yielded body). destruct (stop body) as [|e|].
  - now left.
  - right. eauto.
  - contradiction.
Qed.

Lemma worker_messages_error {T} fmt (body : Run T) e tb :
  In (Error e tb) (worker_messages fmt body) ->
  exists exc, stop body = Raised exc /\ e = str exc /\ tb = fmt exc.
Proof.
  unfold worker_messages. intros Hin. apply in_app_or in Hin.
  destruct Hin as [Hin|Hin].
  - apply in_map_iff in Hin. destruct Hin as (x & Hx & _). discriminate.
  - destruct (stop body) as [|exc|]; cbn in Hin.
    + destruct Hin as [Hin|[]]. discriminate.
    + destruct Hin as [Hin|[Hin|[]]]; [|discriminate].
      injection Hin as <- <-. eauto.
    + destruct Hin.
Qed.

Lemma acknowledge_spec rounds : forall q,
  unfinished_tasks (acknowledge rounds q)
  = (unfinished_tasks q - Nat.min rounds (unfinished_tasks q))%nat
  /\ closed (acknowledge rounds q) = closed q.
Proof.
  induction rounds as [|rounds IH]; intros q; cbn [acknowledge].
  - split; [cbn; lia|reflexivity].
  - unfold task_done. destruct (unfinished_tasks q) as [|n] eqn:Hq.
    + rewrite Hq. split; [cbn; lia|reflexivity].
    + destruct (IH (mkQueue n (closed q))) as [-> ->]. cbn. split; [lia|reflexivity].
Qed.

Lemma join_workers_spec workers q :
  let '(workers', q') := _join_workers workers q in
  map pid workers' = map pid workers
  /\ workers'
     = map (fun worker =>
              mkProcess (pid worker) (is_alive worker)
                        (is_alive worker || terminated worker))
           workers
  /\ acknowledgments q q' = Nat.min (length workers) (unfinished_tasks q)
  /\ closed q' = closed q.
Proof.
  unfold _join_workers, acknowledgments.
  destruct (acknowledge_spec (length workers) q) as [-> ->].
  repeat split.
  - rewrite map_map. apply map_ext. intros w. now destruct (is_alive w).
  - apply map_ext. intros [p alive done]. now destruct alive.
  - lia.
Qed.

(** The workers of a loader, once joined: [terminate()] has been called
    on the ones that answered [is_alive()], and on no other. *)
Lemma joined_workers {E : Collaborators} (self : MultiProcessDataLoader)
    workers :
  workers
  = map (fun worker =>
           mkProcess (pid worker) (is_alive worker)
                     (is_alive worker || terminated worker))
        (started_workers self) ->
  map pid workers = worker_ids self
  /\ Forall (fun worker =>
               is_alive worker = alive_at_join (pid worker)
               /\ terminated worker = is_alive worker)
            workers.
Proof.
  intros ->. unfold started_workers. rewrite !map_map. cbn.
  split; [apply map_id|].
  apply Forall_forall. intros w Hin. apply in_map_iff in Hin.
  destruct Hin as (worker_id & <- & _). cbn. split; [reflexivity|].
  apply orb_false_r.
Qed.


Section Workers.
Context {E : Collaborators}.
Implicit Types (self : MultiProcessDataLoader).

Lemma stop_batches_loop self batches s :
  stop (batches_loop self batches s) = s
  \/ stop (batches_loop self batches s) = StopIteration
  \/ builder_error (stop (batches_loop self batches s)).
Proof.
  unfold builder_error.
  induction batches as [|batch batches IH]; cbn [batches_loop]; [now left|].
  unfold undersized.
  destruct (is_none (batch_sampler self) && drop_last self);
    [destruct (batch_size self) as [b|];
     [destruct (Z.of_nat (length batch) <? b)|]|]; cbn; auto 6.
Qed.

Lemma stop_window_batches self instances :
  stop (window_batches self instances) = StopIteration
  \/ builder_error (stop (window_batches self instances)).
Proof.
  unfold window_batches.
  pose proof (stop_batches_loop self
                (yielded (window_groups self instances))
                (stop (window_groups self instances))) as H.
  assert (Hg : stop (window_groups self instances) = StopIteration
               \/ exists msg, stop (window_groups self instances)
                              = Raised (IndexError msg)).
  { unfold window_groups. destruct (batch_sampler self) as [sampler|].
    - match goal with
      | |- context [map_until ?f ?xs ?s] =>
          destruct (stop_map_until f xs s) as [->|(x & e & _ & Hx & ->)]
      end.
      + intros x. now destruct (getitems instances x).
      + now left.
      + destruct (getitems instances x); [discriminate|].
        injection Hx as <-. right. eauto.
    - destruct (batch_size self); now left. }
  unfold builder_error in *.
  destruct Hg as [Hg|[msg Hg]]; rewrite Hg in H |- *;
    destruct H as [->|[->|H]]; eauto 7.
Qed.

Lemma stop_chunks_loop self chunks s :
  stop (chunks_loop self chunks s) = s
  \/ builder_error (stop (chunks_loop self chunks s)).
Proof.
  induction chunks as [|instances chunks IH]; cbn [chunks_loop];
    [now left|].
  unfold run_then.
  destruct (stop_window_batches self instances) as [H|H].
  - rewrite H. exact IH.
  - right. unfold builder_error in H.
    destruct H as [H|[H|[m H]]]; rewrite H; unfold builder_error; eauto.
Qed.

Lemma stop_instance_chunks self (it : Run Instance) :
  stop (instance_chunks self it) = stop it.
Proof.
  unfold instance_chunks, lazy_groups_of_run.
  destruct (max_instances_in_memory self) as [m|].
  - destruct (shuffle self); cbn [stop]; now destruct (stop it).
  - now destruct (stop it).
Qed.

(** The batch builder stops the way its input does, unless its own body
    raises. *)
Lemma stop_instances_to_batches self (it : Run Instance) :
  stop (_instances_to_batches self it) = stop it
  \/ builder_error (stop (_instances_to_batches self it)).
Proof.
  unfold _instances_to_batches. cbv zeta.
  match goal with
  | |- context [chunks_loop self ?c ?s] =>
      pose proof (stop_chunks_loop self c s) as H
  end.
  rewrite stop_instance_chunks in *.
  match type of H with
  | context [map_until ?f ?xs ?s] =>
      destruct (stop_map_until f xs s) as [Hs|(x & e & _ & Hx & Hs)]
  end.
  - intros x. unfold _index_instance. now destruct (_vocab self).
  - now rewrite Hs in *.
  - unfold _index_instance in Hx. destruct (_vocab self); [discriminate|].
    injection Hx as <-. rewrite Hs in *. right.
    destruct H as [->|H]; [left; reflexivity|exact H].
Qed.

Lemma source_run_not_blocked {A} (s : Source A) : stop (source_run s) <> Blocked.
Proof. unfold source_run. cbn. now destruct (failure s). Qed.

(** C6. Whatever the reader does for a worker, what an instance worker
    and what a batch worker put on the queue is a sequence of values, then
    at most one error, then the end marker, and nothing more; the error
    carries the text of the exception and its formatted traceback, two
    strings, and appears exactly when the body of the worker raised. *)
Theorem workers_follow_protocol self (worker_id : Z) :
  follows_protocol (_instance_worker self worker_id)
  /\ follows_protocol (_batch_worker self worker_id)
  /\ (forall e tb,
         In (Error e tb) (_instance_worker self worker_id) ->
         exists exc,
           stop (instance_worker_body self worker_id) = Raised exc
           /\ e = str exc /\ tb = format_exc exc)
  /\ (forall e tb,
         In (Error e tb) (_batch_worker self worker_id) ->
         exists exc,
           stop (batch_worker_body self worker_id) = Raised exc
           /\ e = str exc /\ tb = format_exc exc)
  /\ (forall exc,
         stop (instance_worker_body self worker_id) = Raised exc ->
         exists values,
           _instance_worker self worker_id
           = map (@Value Instance) values
             ++ [Error (str exc) (format_exc exc); Done])
  /\ (forall exc,
         stop (batch_worker_body self worker_id) = Raised exc ->
         exists values,
           _batch_worker self worker_id
           = map (@Value TensorDict) values
             ++ [Error (str exc) (format_exc exc); Done]).
Proof.
  assert (Hi : stop (instance_worker_body self worker_id) <> Blocked).
  { unfold instance_worker_body.
    destruct (records (read (worker_info self worker_id))) as [|i l];
      [apply source_run_not_blocked|].
    destruct (indexed_text_field i); [discriminate|].
    apply source_run_not_blocked. }
  assert (Hb : stop (batch_worker_body self worker_id) <> Blocked).
  { unfold batch_worker_body.
    pose proof (source_run_not_blocked (read (worker_info self worker_id)))
      as Hs.
    destruct (stop_instances_to_batches self
                (source_run (read (worker_info self worker_id))))
      as [->|[->|[->|[m ->]]]]; try discriminate. exact Hs. }
  repeat split.
  - now apply worker_messages_protocol.
  - now apply worker_messages_protocol.
  - intros e tb. apply worker_messages_error.
  - intros e tb. apply worker_messages_error.
  - intros exc Hexc. eexists. unfold _instance_worker, worker_messages.
    now rewrite Hexc.
  - intros exc Hexc. eexists. unfold _batch_worker, worker_messages.
    now rewrite Hexc.
Qed.

End Workers.

(** ** Iteration *)

Section Iteration.
Context {E : Collaborators}.
Implicit Types (self : MultiProcessDataLoader).

Lemma same_settings_refl self : same_settings self self.
Proof. now split. Qed.

Lemma same_settings_trans self1 self2 self3 :
  same_settings self1 self2 -> same_settings self2 self3 ->
  same_settings self1 self3.
Proof.
  intros (? & ? & ? & ?) (? & ? & ? & ?). repeat split; congruence.
Qed.

Lemma map_until_ext {A B} (f g : A -> Result B) xs s :
  (forall x, f x = g x) -> map_until f xs s = map_until g xs s.
Proof.
  intros Hfg. induction xs as [|x xs IH]; cbn; [reflexivity|].
  now rewrite Hfg, IH.
Qed.

Lemma batches_loop_frame self self' batches s :
  same_settings self self' ->
  batches_loop self' batches s = batches_loop self batches s.
Proof.
  intros (Hc & Hv & _). induction batches as [|batch batches IH];
    cbn [batches_loop]; [reflexivity|].
  unfold undersized, tensorize. now rewrite IH, Hc.
Qed.

Lemma window_batches_frame self self' instances :
  same_settings self self' ->
  window_batches self' instances = window_batches self instances.
Proof.
  intros H. unfold window_batches.
  rewrite (batches_loop_frame self self') by assumption.
  destruct H as (Hc & Hv & _). unfold window_groups. now rewrite Hc.
Qed.

Lemma chunks_loop_frame self self' chunks s :
  same_settings self self' ->
  chunks_loop self' chunks s = chunks_loop self chunks s.
Proof.
  intros H. induction chunks as [|instances chunks IH];
    cbn [chunks_loop]; [reflexivity|].
  now rewrite IH, (window_batches_frame self self').
Qed.

Lemma instances_to_batches_frame self self' (it : Run Instance) :
  same_settings self self' ->
  _instances_to_batches self' it = _instances_to_batches self it.
Proof.
  intros H. unfold _instances_to_batches. cbv zeta.
  rewrite (chunks_loop_frame self self') by assumption.
  destruct H as (Hc & Hv & _).
  rewrite (map_until_ext (_index_instance self') (_index_instance self)).
  - unfold instance_chunks, window_size. now rewrite Hc.
  - intros x. unfold _index_instance. now rewrite Hv.
Qed.

Lemma read_instances_frame self self' :
  same_settings self self' -> read_instances self' = read_instances self.
Proof.
  intros (Hc & Hv & Hq & _). unfold read_instances, _gather_instances,
    set_up, worker_ids, _instance_worker, instance_worker_body, worker_info.
  rewrite Hc, Hq.
  assert (Hp : map (prepare self') = map (prepare self)).
  { unfold prepare. now rewrite Hv. }
  now rewrite Hp.
Qed.

(** *** What a pass changes *)

Lemma iter_instances_settings self demand :
  same_settings self (snd (iter_instances self demand))
  /\ _batch_generator (snd (iter_instances self demand))
     = _batch_generator self.
Proof.
  unfold iter_instances.
  destruct (_instances self) as [[|i l]|];
    try destruct (is_none (max_instances_in_memory self));
    cbn; split; try reflexivity; repeat split; reflexivity.
Qed.

Lemma iter_batches_settings self :
  same_settings self (snd (_iter_batches self))
  /\ _batch_generator (snd (_iter_batches self)) = _batch_generator self.
Proof.
  unfold _iter_batches.
  destruct (is_some (_instances self) || (num_workers self <=? 0));
    [|destruct (set_up self (_max_batch_queue_size self));
      (split; [apply same_settings_refl|reflexivity])].
  match goal with
  | |- context [iter_instances self ?d] =>
      pose proof (iter_instances_settings self d) as [Hs Hg];
      destruct (iter_instances self d) as [instances self1]
  end.
  cbn in *. split; assumption.
Qed.

Lemma batch_fan_in_frame self self' :
  same_settings self self' -> batch_fan_in self' = batch_fan_in self.
Proof.
  intros H. unfold batch_fan_in, worker_ids.
  pose proof H as (Hc & Hv & _). rewrite Hc. do 2 f_equal.
  apply map_ext. intros worker_id.
  unfold _batch_worker, batch_worker_body, worker_info. rewrite Hc.
  now rewrite (instances_to_batches_frame self self') by exact H.
Qed.

Lemma iter_instances_generator self g demand :
  iter_instances (set_batch_generator self g) demand
  = (fst (iter_instances self demand),
     set_batch_generator (snd (iter_instances self demand)) g).
Proof.
  assert (Hr : read_instances (set_batch_generator self g)
               = read_instances self)
    by (apply read_instances_frame; now repeat split).
  unfold iter_instances. cbn [set_batch_generator _instances config].
  rewrite Hr.
  destruct (_instances self) as [[|i l]|];
    try destruct (is_none (max_instances_in_memory self));
    reflexivity.
Qed.

(** A pass neither reads nor writes [_batch_generator]. *)
Lemma iter_batches_generator self g :
  _iter_batches (set_batch_generator self g)
  = (fst (_iter_batches self),
     set_batch_generator (snd (_iter_batches self)) g).
Proof.
  assert (Hs : same_settings self (set_batch_generator self g))
    by (now repeat split).
  unfold _iter_batches, set_up.
  cbn [set_batch_generator _instances config _vocab _max_batch_queue_size].
  destruct (is_some (_instances self) || (num_workers self <=? 0)).
  - rewrite iter_instances_generator.
    destruct (iter_instances self
                match _vocab self with
                | Some _ => None
                | None => Some 1%nat
                end) as [instances self1].
    cbn [fst snd].
    now rewrite (instances_to_batches_frame self _ _ Hs).
  - rewrite (batch_fan_in_frame self _ Hs).
    now destruct (get_context (start_method self));
      [|destruct (start_failure (_max_batch_queue_size self))].
Qed.

Lemma builder_error_pass_stop s : builder_error s -> pass_stop s.
Proof. intros [->|[->|[m ->]]]; exact I. Qed.

Lemma setup_error_pass_stop e : setup_error e -> pass_stop (Raised e).
Proof.
  intros [[method H]|[msg ->]]; [|exact I].
  destruct (get_context_value_error method e H) as (msg & -> & Hmsg).
  exact Hmsg.
Qed.

Lemma reading_stop_pass_stop s : reading_stop s -> pass_stop s.
Proof.
  destruct s as [|e|]; try (intros _; exact I).
  destruct e; try (intros _; exact I); apply setup_error_pass_stop.
Qed.

Lemma stop_pulled {A} demand (r : Run A) :
  stop (pulled demand r) = stop r \/ stop (pulled demand r) = StopIteration.
Proof.
  unfold pulled. destruct demand as [k|]; [|now left].
  destruct (k <=? length (yielded r))%nat; cbn; auto.
Qed.

Lemma stop_iter_instances self demand :
  pass_stop (stop (fst (iter_instances self demand))).
Proof.
  unfold iter_instances.
  destruct (_instances self) as [[|i l]|]; cbn [fst];
    match goal with
    | |- context [pulled ?d ?r] =>
        destruct (stop_pulled d r) as [-> | ->]
    end; try exact I;
    apply reading_stop_pass_stop, stop_read_instances.
Qed.

Lemma stop_iter_batches self : pass_stop (stop (fst (_iter_batches self))).
Proof.
  unfold _iter_batches.
  destruct (is_some (_instances self) || (num_workers self <=? 0)).
  - match goal with
    | |- context [iter_instances self ?d] =>
        pose proof (stop_iter_instances self d) as Hs;
        destruct (iter_instances self d) as [instances self1]
    end.
    cbn [fst] in *.
    destruct (stop_instances_to_batches self instances) as [-> |H];
      [exact Hs|now apply builder_error_pass_stop].
  - destruct (set_up self (_max_batch_queue_size self)) as [e|] eqn:Hs.
    + apply setup_error_pass_stop. now apply set_up_error in Hs.
    + cbn [fst]. unfold batch_fan_in.
      match goal with
      | |- context [fan_in ?n ?t ?d] =>
          destruct (stop_fan_in n t d) as [->|[->|[e ->]]]
      end; exact I.
Qed.

(** *** Loaders that calls can produce *)

Lemma evolves_refl self : evolves self self.
Proof. split; [apply same_settings_refl|auto]. Qed.

Lemma evolves_trans self1 self2 self3 :
  evolves self1 self2 -> evolves self2 self3 -> evolves self1 self3.
Proof.
  intros [Hs Hc] [Hs' Hc']. split; [|auto].
  eapply same_settings_trans; eassumption.
Qed.

Lemma iter_instances_evolves self demand :
  evolves self (snd (iter_instances self demand))
  /\ (max_instances_in_memory self = None ->
      is_some (_instances (snd (iter_instances self demand))) = true).
Proof.
  unfold iter_instances, evolves, same_settings.
  destruct (_instances self) as [[|i l]|] eqn:Hi;
    destruct (max_instances_in_memory self);
    cbn; rewrite ?Hi; repeat split; auto; discriminate.
Qed.

Lemma iter_batches_evolves self :
  evolves self (snd (_iter_batches self)).
Proof.
  unfold _iter_batches.
  destruct (is_some (_instances self) || (num_workers self <=? 0));
    [|destruct (set_up self (_max_batch_queue_size self));
      apply evolves_refl].
  match goal with
  | |- context [iter_instances self ?d] =>
      pose proof (iter_instances_evolves self d) as [[Hs Hk] _];
      destruct (iter_instances self d) as [instances self1]
  end.
  cbn in *. split; [exact Hs|].
  intros H. apply Hk in H. now destruct (_instances self1).
Qed.

Lemma next_batch_facts self g :
  generator_ok g ->
  evolves self (snd (next_batch self g))
  /\ generator_ok (snd (fst (next_batch self g)))
  /\ (forall s, fst (fst (next_batch self g)) = Stopped s -> pass_stop s).
Proof.
  intros Hg. unfold next_batch.
  assert (H : evolves self
                (snd match g with
                     | Fresh => _iter_batches self
                     | Resumed r => (r, self)
                     end)
              /\ pass_stop
                   (stop (fst match g with
                              | Fresh => _iter_batches self
                              | Resumed r => (r, self)
                              end))).
  { destruct g as [|r]; cbn.
    - split; [apply iter_batches_evolves|apply stop_iter_batches].
    - split; [apply evolves_refl|exact Hg]. }
  destruct (match g with
            | Fresh => _iter_batches self
            | Resumed r => (r, self)
            end) as [r self1].
  cbn [fst snd] in H. destruct H as [He Hs].
  destruct (yielded r) as [|batch rest]; cbn [fst snd].
  - repeat split; try apply He.
    + cbn. now destruct (stop r).
    + now intros s [= <-].
  - repeat split; try apply He; [exact Hs|discriminate].
Qed.

Lemma epoch_facts rounds : forall self g,
  generator_ok g ->
  evolves self (snd (epoch rounds self g))
  /\ (exists g', _batch_generator (snd (epoch rounds self g)) = Some g'
                 /\ generator_ok g')
  /\ stop (fst (epoch rounds self g)) <> Raised (ValueError not_indexed_msg).
Proof.
  induction rounds as [|rounds IH]; intros self g Hg; cbn [epoch].
  - unfold leave. cbn [fst snd stop]. split; [exact (evolves_refl self)|].
    split; [exists g; split; [reflexivity|exact Hg]|]. discriminate.
  - pose proof (next_batch_facts self g Hg) as (He & Hg1 & Hs).
    destruct (next_batch self g) as [[[batch|s] g1] self1];
      cbn [fst snd] in He, Hg1, Hs.
    + destruct (IH self1 g1 Hg1) as (He' & Hgen & Hstop).
      unfold and_then. cbn [fst snd yield stop].
      split; [eapply evolves_trans; eassumption|]. split; assumption.
    + specialize (Hs s eq_refl).
      destruct s as [|e|].
      * pose proof (next_batch_facts self1 Fresh I) as (He2 & Hg2 & Hs2).
        destruct (next_batch self1 Fresh) as [[[batch|s2] g2] self2];
          cbn [fst snd] in He2, Hg2, Hs2.
        -- destruct (IH self2 g2 Hg2) as (He' & Hgen & Hstop).
           unfold and_then. cbn [fst snd yield stop].
           split; [|split; assumption].
           eapply evolves_trans; [eassumption|].
           eapply evolves_trans; eassumption.
        -- specialize (Hs2 s2 eq_refl).
           assert (He12 : evolves self self2)
             by (eapply evolves_trans; eassumption).
           destruct s2 as [|e2|]; unfold leave; cbn [fst snd stop];
             (split; [exact He12|]);
             (split; [exists g2; split; [reflexivity|exact Hg2]|]);
             try discriminate.
           intros [= ->]. now apply Hs2.
      * unfold leave. cbn [fst snd stop]. split; [exact He|].
        split; [exists g1; split; [reflexivity|exact Hg1]|].
        intros [= ->]. now apply Hs.
      * unfold leave. cbn [fst snd stop]. split; [exact He|].
        split; [exists g1; split; [reflexivity|exact Hg1]|]. discriminate.
Qed.

(** Whether reading comes to its end depends on the options and on the
    bound of the queue only. *)
Lemma stop_read_instances_config self self' :
  config self' = config self ->
  _max_instance_queue_size self' = _max_instance_queue_size self ->
  stop (read_instances self') = stop (read_instances self).
Proof.
  intros Hc Hq. unfold read_instances, _gather_instances, set_up, worker_ids,
    _instance_worker, instance_worker_body, worker_info.
  rewrite Hc, Hq. destruct (num_workers self <=? 0); [reflexivity|].
  now destruct (get_context (start_method self));
    [|destruct (start_failure (_max_instance_queue_size self))].
Qed.

Lemma sound_kept self self' :
  config self' = config self ->
  _max_instance_queue_size self' = _max_instance_queue_size self ->
  (is_some (_instances self) = true -> is_some (_instances self') = true) ->
  kept_ok self' -> sound self -> sound self'.
Proof.
  intros Hc Hq Hk Hg (Hval & _ & Hmem). repeat split.
  - now rewrite Hc.
  - exact Hg.
  - apply Hk, Hmem. now rewrite <- Hc.
  - rewrite (stop_read_instances_config self self') by assumption.
    apply Hmem. now rewrite <- Hc.
Qed.

Lemma sound_evolves self self' :
  evolves self self' -> kept_ok self' -> sound self -> sound self'.
Proof.
  intros [(Hc & Hv & Hq & _) Hk]. now apply sound_kept.
Qed.

Lemma iter_evolves self :
  kept_ok self ->
  evolves self (snd (__iter__ self))
  /\ kept_ok (snd (__iter__ self))
  /\ (_vocab self <> None ->
      stop (fst (__iter__ self)) <> Raised (ValueError not_indexed_msg)).
Proof.
  intros Hg. unfold __iter__. destruct (_vocab self) as [vocab|] eqn:Hv.
  - destruct (batches_per_epoch self) as [n|].
    + match goal with
      | |- context [epoch ?k self ?g] =>
          destruct (epoch_facts k self g) as (He & (g' & Hg' & Hok) & Hs)
      end.
      { unfold kept_ok in Hg. now destruct (_batch_generator self). }
      split; [exact He|]. split; [|intros _; apply Hs].
      unfold kept_ok. now rewrite Hg'.
    + split; [apply iter_batches_evolves|]. split.
      * unfold kept_ok. now destruct (iter_batches_settings self) as [_ ->].
      * intros _ Hs. pose proof (stop_iter_batches self) as Hp.
        rewrite Hs in Hp. now apply Hp.
  - cbn. split; [apply evolves_refl|]. split; [exact Hg|].
    intros Hn. congruence.
Qed.

Lemma len_evolves self :
  evolves self (snd (__len__ self))
  /\ _batch_generator (snd (__len__ self)) = _batch_generator self.
Proof.
  unfold __len__.
  destruct (batches_per_epoch self);
    [split; [apply evolves_refl|reflexivity]|].
  destruct (max_instances_in_memory self);
    [split; [apply evolves_refl|reflexivity]|].
  assert (H : evolves self
                (snd (if cached self then (mkRun [] StopIteration, self)
                      else iter_instances self None))
              /\ _batch_generator
                   (snd (if cached self then (mkRun [] StopIteration, self)
                         else iter_instances self None))
                 = _batch_generator self).
  { destruct (cached self); cbn [snd].
    - split; [apply evolves_refl|reflexivity].
    - split; [apply iter_instances_evolves|apply iter_instances_settings]. }
  destruct (if cached self then (mkRun [] StopIteration, self)
            else iter_instances self None) as [r self1].
  cbn [snd] in H.
  destruct (stop r); [|exact H|exact H].
  destruct (_instances self1); [|exact H].
  destruct (batch_sampler self); [exact H|].
  destruct (batch_size self) as [[|b|b]|]; try exact H;
    destruct (drop_last self || _); exact H.
Qed.

Lemma reachable_sound self : reachable self -> sound self.
Proof.
  induction 1 as [c self Hinit|self vocab _ IH|self _ IH Hstop|self _ IH Hlen].
  - unfold __init__ in Hinit. destruct (validate c) eqn:Hval; [discriminate|].
    destruct (max_instances_in_memory c) as [m|] eqn:Hm; cbn [is_none] in Hinit.
    + injection Hinit as <-. split; [exact Hval|]. split; [exact I|].
      intros H. cbn in H. congruence.
    + rewrite iter_instances_all in Hinit by reflexivity.
      destruct (stop (read_instances (initial c))) eqn:Hs; try discriminate.
      cbn [initial config is_none] in Hinit. rewrite Hm in Hinit.
      cbn [is_none] in Hinit. injection Hinit as <-.
      split; [exact Hval|]. split; [exact I|]. intros _.
      split; [reflexivity|].
      exact Hs.
  - apply sound_kept with self; [reflexivity|reflexivity| | |exact IH].
    + unfold index_with. cbn. now destruct (_instances self).
    + destruct IH as (_ & Hg & _). unfold kept_ok, index_with in *. cbn.
      destruct (_batch_generator self) as [[|r]|]; exact Hg.
  - destruct (iter_evolves self) as (He & Hg & _); [apply IH|].
    now apply sound_evolves with self.
  - destruct (len_evolves self) as [He Hg].
    apply sound_evolves with self; [exact He| |exact IH].
    unfold kept_ok. rewrite Hg. apply IH.
Qed.

Lemma valid_batch_size (c : Config) :
  validate c = None -> batch_sampler c = None ->
  exists b, batch_size c = Some b /\ 1 <= b.
Proof.
  intros Hv Hs. apply validate_none_iff in Hv.
  unfold invalid, listed_invalid, below, is_none, is_some in Hv.
  rewrite Hs in Hv. repeat (apply orb_false_iff in Hv; destruct Hv as [Hv ?]).
  destruct (batch_size c) as [b|]; [|discriminate].
  exists b. split; [reflexivity|]. now apply Z.ltb_ge.
Qed.

(** C8. On a loader without vocabulary [__iter__] raises the
    [ValueError] that says so, before it has yielded anything and without
    touching the loader; [index_with] attaches the vocabulary; and on a
    loader with a vocabulary [__iter__] never raises that error. *)
Theorem iteration_requires_vocabulary self :
  reachable self ->
  (_vocab self = None ->
   __iter__ self = (mkRun [] (Raised (ValueError not_indexed_msg)), self))
  /\ (forall vocab, _vocab (index_with self vocab) = Some vocab)
  /\ (_vocab self <> None ->
      stop (fst (__iter__ self)) <> Raised (ValueError not_indexed_msg)).
Proof.
  intros Hr. apply reachable_sound in Hr. destruct Hr as (_ & Hg & _).
  split; [|split].
  - intros Hv. unfold __iter__. now rewrite Hv.
  - reflexivity.
  - intros Hv. destruct (iter_evolves self Hg) as (_ & _ & Hs).
    now apply Hs.
Qed.

(** C4. [__len__] returns [batches_per_epoch] when it is set. Otherwise,
    with [max_instances_in_memory] set it raises [TypeError]; without it,
    the records are the cached ones, read now if there were none, and the
    result is what the sampler counts for them if there is a sampler, else
    the quotient of their number by the batch size when [drop_last] is set
    or the batch size divides their number, and one more than that
    quotient otherwise. *)
Theorem length_of_loader self :
  reachable self ->
  match batches_per_epoch self, max_instances_in_memory self with
  | Some n, _ => fst (__len__ self) = Ok n
  | None, Some _ => fst (__len__ self) = Raise TypeError
  | None, None =>
      exists instances,
        _instances (snd (__len__ self)) = Some instances
        /\ (cached self = true -> _instances self = Some instances)
        /\ (cached self = false -> instances = yielded (read_instances self))
        /\ match batch_sampler self with
           | Some sampler =>
               fst (__len__ self) = Ok (get_num_batches sampler instances)
           | None =>
               exists b,
                 batch_size self = Some b
                 /\ let n := Z.of_nat (length instances) in
                    (drop_last self = true \/ (b | n) ->
                     fst (__len__ self) = Ok (n / b))
                    /\ (drop_last self = false /\ ~ (b | n) ->
                        fst (__len__ self) = Ok (1 + n / b))
           end
  end.
Proof.
  intros Hr. apply reachable_sound in Hr. destruct Hr as (Hval & _ & Hmem).
  unfold __len__.
  destruct (batches_per_epoch self) as [n|]; [reflexivity|].
  destruct (max_instances_in_memory self) as [m|] eqn:Hm; [reflexivity|].
  destruct (Hmem eq_refl) as [Hcache Hstop].
  assert (Hrun : exists instances,
             (if cached self then (mkRun [] StopIteration, self)
              else iter_instances self None)
             = (mkRun (if cached self then [] else instances) StopIteration,
                set_instances self (Some instances))
             /\ (cached self = true -> _instances self = Some instances)
             /\ (cached self = false
                 -> instances = yielded (read_instances self))).
  { destruct (cached self) eqn:Hc.
    - unfold cached in Hc. destruct self as [c q1 q2 [[|i l]|] g v];
        try discriminate.
      exists (i :: l). repeat split. discriminate.
    - exists (yielded (read_instances self)).
      rewrite (iter_instances_all _ Hc), Hm. cbn [is_none].
      repeat split; try discriminate.
      destruct (read_instances self) as [ys s]. cbn in *. now subst. }
  destruct Hrun as (instances & -> & Hc1 & Hc2). cbn [stop _instances set_instances].
  exists instances.
  assert (Hsnd : forall (x y : Result Z) (b : bool) self1,
             snd (if b then (x, self1) else (y, self1)) = self1)
    by (now intros x y []).
  destruct (batch_sampler self) as [sampler|] eqn:Hsampler.
  - cbn. repeat split; assumption.
  - destruct (valid_batch_size self Hval Hsampler) as (b & Hb & Hge).
    rewrite Hb.
    assert (Hmod : (Z.of_nat (length instances) mod b =? 0) = true
                   <-> (b | Z.of_nat (length instances))).
    { rewrite Z.eqb_eq. apply Z.mod_divide. lia. }
    destruct b as [|b|b]; try lia.
    split; [now rewrite Hsnd|]. split; [assumption|]. split; [assumption|].
    exists (Z.pos b). split; [reflexivity|]. cbv zeta. split.
    + intros [Hd|Hd].
      * now rewrite Hd.
      * apply Hmod in Hd. rewrite Hd, orb_true_r. reflexivity.
    + intros [Hd Hn]. rewrite Hd. cbn [orb].
      destruct (Z.of_nat (length instances) mod Z.pos b =? 0) eqn:Hz;
        [|reflexivity].
      exfalso. now apply Hn, Hmod.
Qed.

(** *** Iterating twice *)

Lemma map_until_indexed self vocab (l : list Instance) s :
  _vocab self = Some vocab ->
  map_until (_index_instance self) l s
  = mkRun (map (fun i => index_fields vocab (apply_token_indexers i)) l) s.
Proof.
  intros Hv. induction l as [|i l IH]; cbn; [reflexivity|].
  unfold _index_instance at 1. rewrite Hv, IH. reflexivity.
Qed.

Lemma instances_to_batches_indexed self vocab (l : list Instance) s :
  indexing_idempotent -> _vocab self = Some vocab ->
  _instances_to_batches self
    (mkRun (map (fun i => index_fields vocab (apply_token_indexers i)) l) s)
  = _instances_to_batches self (mkRun l s).
Proof.
  intros Hidem Hv. unfold _instances_to_batches. cbn [yielded stop].
  rewrite !(map_until_indexed self vocab) by assumption.
  rewrite map_map.
  rewrite (map_ext _ (fun i => index_fields vocab (apply_token_indexers i)));
    [reflexivity|].
  intros i. apply Hidem.
Qed.

Lemma instances_to_batches_returns self (it : Run Instance) :
  stop (_instances_to_batches self it) = StopIteration ->
  stop it = StopIteration.
Proof.
  intros Hs. destruct (stop_instances_to_batches self it) as [H|H].
  - congruence.
  - rewrite Hs in H. destruct H as [H|[H|[m H]]]; discriminate.
Qed.

Lemma iter_instances_cached self i l demand :
  _instances self = Some (i :: l) ->
  iter_instances self demand
  = (pulled demand (mkRun (i :: l) StopIteration), self).
Proof. intros H. unfold iter_instances. now rewrite H. Qed.

(** One pass in the main process, with a vocabulary. *)
Lemma iter_batches_in_process self vocab :
  num_workers self <= 0 -> _vocab self = Some vocab ->
  _iter_batches self
  = (_instances_to_batches self (fst (iter_instances self None)),
     set_instances (snd (iter_instances self None))
       (option_map
          (map (fun i => index_fields vocab (apply_token_indexers i)))
          (_instances (snd (iter_instances self None))))).
Proof.
  intros Hw Hv. unfold _iter_batches.
  assert (Hle : (num_workers self <=? 0) = true) by now apply Z.leb_le.
  rewrite Hle, orb_true_r, Hv.
  destruct (iter_instances self None) as [instances self1]. cbn [fst snd].
  unfold indexed_in_place. now rewrite Hv.
Qed.

Lemma first_of_in_process_pass self self' vocab :
  same_settings self self' ->
  num_workers self <= 0 -> _vocab self = Some vocab ->
  fst (_iter_batches self')
  = _instances_to_batches self (fst (iter_instances self' None)).
Proof.
  intros Hs Hw Hv.
  rewrite (iter_batches_in_process self' vocab).
  - cbn [fst]. now apply instances_to_batches_frame.
  - destruct Hs as [-> _]. exact Hw.
  - destruct Hs as (_ & -> & _). exact Hv.
Qed.

(** C9, as amended. Without workers, shuffling and [batches_per_epoch],
    and with indexing that changes nothing the second time, an iteration
    that came to its end is repeated by the next one: the same batches in
    the same order. *)
Theorem repeated_iteration_is_identical self :
  num_workers self <= 0 ->
  shuffle self = false ->
  batches_per_epoch self = None ->
  indexing_idempotent ->
  stop (fst (__iter__ self)) = StopIteration ->
  fst (__iter__ (snd (__iter__ self))) = fst (__iter__ self).
Proof.
  intros Hw _ Hbpe Hidem Hstop.
  unfold __iter__ in Hstop |- *.
  destruct (_vocab self) as [vocab|] eqn:Hv; [|discriminate].
  rewrite Hbpe in Hstop |- *.
  destruct (iter_batches_settings self) as [Hs _].
  pose proof Hs as (Hc & Hv' & _). rewrite Hv', Hv, Hc, Hbpe.
  rewrite (first_of_in_process_pass self _ vocab Hs Hw Hv).
  rewrite (iter_batches_in_process self vocab Hw Hv) in Hstop |- *.
  cbn [fst snd] in Hstop |- *. clear Hs Hc Hv'.
  apply instances_to_batches_returns in Hstop.
  assert (Hfresh : forall s,
             cached s = false -> same_settings self s ->
             fst (iter_instances s None) = read_instances self).
  { intros s Hcs Hss. rewrite (iter_instances_all s Hcs). cbn [fst].
    now apply read_instances_frame. }
  destruct (cached self) eqn:Hcached.
  - (* the cache holds records: they are indexed in place *)
    unfold cached in Hcached.
    destruct (_instances self) as [[|i l]|] eqn:Hi; try discriminate.
    rewrite (iter_instances_cached self i l None Hi). cbn [fst snd pulled].
    rewrite Hi. cbn [option_map map].
    erewrite iter_instances_cached by reflexivity. cbn [fst pulled].
    now rewrite <- (instances_to_batches_indexed self vocab (i :: l)
                     StopIteration Hidem Hv).
  - (* no record in the cache: they are read *)
    rewrite (iter_instances_all self Hcached) in Hstop |- *.
    cbn [fst snd] in Hstop |- *.
    destruct (read_instances self) as [ys s] eqn:Hread.
    cbn [stop yielded] in Hstop |- *. subst s.
    destruct (is_none (max_instances_in_memory self));
      cbn [set_instances _instances option_map].
    + destruct ys as [|y ys].
      * rewrite Hfresh; [reflexivity|reflexivity|now repeat split].
      * cbn [map]. erewrite iter_instances_cached by reflexivity.
        cbn [fst pulled].
        now rewrite <- (instances_to_batches_indexed self vocab (y :: ys)
                         StopIteration Hidem Hv).
    + rewrite Hfresh; [reflexivity| |now repeat split].
      unfold cached in Hcached |- *. cbn [set_instances _instances].
      now destruct (_instances self) as [[|i l]|].
Qed.

(** *** Eleven records in batches of four *)

(** C3. A loader built with [batch_size=4] (no sampler, no shuffling, no
    workers; everything in memory, or in windows of
    [max_instances_in_memory] records) over a reader of eleven records
    yields, once indexed, the first four and the next four records as two
    batches when [drop_last] is set, the last three records being in no
    batch, and a third batch of these three records when it is not. *)
Theorem eleven_records_in_batches_of_four
    (vocab : Vocabulary) (r0 r1 r2 r3 r4 r5 r6 r7 r8 r9 r10 : Instance)
    (memory : option Z) (method : string) (pin : bool) (dev : option Device)
    (drop : bool) :
  read None = mkSource [r0; r1; r2; r3; r4; r5; r6; r7; r8; r9; r10] None ->
  match memory with Some m => 4 <= m | None => True end ->
  let i := twice_indexed vocab in
  exists self,
    __init__ (mkConfig (Some 4) drop false None None 0 memory method pin dev)
    = Ok self
    /\ fst (__iter__ (index_with self vocab))
       = mkRun
           (tensorize self [i r0; i r1; i r2; i r3]
            :: tensorize self [i r4; i r5; i r6; i r7]
            :: if drop then [] else [tensorize self [i r8; i r9; i r10]])
           StopIteration.
Proof.
  intros Hread Hmem i.
  set (c := mkConfig (Some 4) drop false None None 0 memory method pin dev).
  assert (Hval : validate c = None).
  { apply validate_none_iff. unfold invalid, listed_invalid. cbn.
    rewrite !andb_false_r. cbn.
    destruct memory as [m|]; [|reflexivity].
    rewrite !orb_false_r. apply Z.ltb_ge. exact Hmem. }
  unfold __init__. rewrite Hval.
  destruct memory as [m|].
  - (* windows of [m] records, rounded up to a multiple of four *)
    cbn [max_instances_in_memory c is_none]. eexists. split; [reflexivity|].
    set (self := index_with (initial c) vocab).
    assert (Hb : batch_size self = Some 4) by reflexivity.
    assert (Hfour : 1 < 4) by lia.
    destruct (window_size_rounded self m 4 Hb Hfour) as (q & Hq & HW & _).
    { cbn. rewrite Z.div_1_r. lia. }
    assert (Hn : exists k, Z.to_nat (window_size self m) = (S k * 4)%nat).
    { exists (Z.to_nat (q - 1)). rewrite HW. lia. }
    destruct Hn as [k Hk].
    assert (Hv : _vocab self = Some vocab) by reflexivity.
    assert (Hw : num_workers self <= 0) by (cbn; lia).
    unfold __iter__. rewrite Hv.
    change (batches_per_epoch self) with (@None Z). cbv iota.
    rewrite (iter_batches_in_process self vocab Hw Hv). cbn [fst].
    rewrite (iter_instances_all self eq_refl). cbn [fst].
    unfold read_instances.
    change (num_workers self <=? 0) with true. cbv iota.
    rewrite Hread. cbn [records map source_run failure stop].
    unfold _instances_to_batches. cbn [yielded stop].
    rewrite (map_until_indexed self vocab) by exact Hv.
    unfold instance_chunks.
    change (max_instances_in_memory self) with (Some m).
    change (shuffle self) with false. cbv iota.
    unfold lazy_groups_of_run, lazy_groups_of. cbn [stop yielded map length].
    rewrite Hk. clear Hk HW.
    unfold prepare. rewrite Hv. fold (twice_indexed vocab). fold i.
    subst self.
    destruct k as [|[|k]]; cbn; unfold undersized, tensorize; cbn;
      destruct drop; reflexivity.
  - (* everything in memory: one window *)
    cbn. unfold iter_instances, read_instances. cbn. rewrite Hread. cbn.
    eexists. split; [reflexivity|].
    unfold __iter__, _iter_batches, iter_instances, index_with. cbn.
    unfold _instances_to_batches, _index_instance, instance_chunks. cbn.
    unfold window_batches, window_groups, lazy_groups_of. cbn.
    unfold undersized, tensorize. cbn.
    destruct drop; reflexivity.
Qed.

(** *** Epochs of a fixed number of batches *)

Section FixedLength.
Variable Inv : MultiProcessDataLoader -> Prop.
Hypothesis Inv_generator :
  forall s g, Inv s -> Inv (set_batch_generator s g).
Hypothesis Inv_pass :
  forall s, Inv s ->
    yielded (fst (_iter_batches s)) <> []
    /\ stop (fst (_iter_batches s)) = StopIteration
    /\ Inv (snd (_iter_batches s)).

Lemma next_batch_fresh s :
  Inv s ->
  exists batch rest,
    next_batch s Fresh
    = (Item batch, Resumed (mkRun rest StopIteration), snd (_iter_batches s))
    /\ Inv (snd (_iter_batches s)).
Proof.
  intros Hs. destruct (Inv_pass s Hs) as (Hne & Hstop & HInv).
  unfold next_batch. destruct (_iter_batches s) as [r s1]. cbn [fst snd] in *.
  destruct (yielded r) as [|batch rest]; [contradiction|].
  exists batch, rest. now rewrite Hstop.
Qed.

Lemma next_batch_exhausted s st :
  next_batch s (Resumed (mkRun [] st))
  = (Stopped st,
     Resumed (mkRun [] (match st with
                        | Blocked => Blocked
                        | _ => StopIteration
                        end)),
     s).
Proof. reflexivity. Qed.

Lemma next_batch_pending s batch rest st :
  next_batch s (Resumed (mkRun (batch :: rest) st))
  = (Item batch, Resumed (mkRun rest st), s).
Proof. reflexivity. Qed.

Lemma epoch_fixed_length rounds : forall s g,
  Inv s -> pending_normal g ->
  length (yielded (fst (epoch rounds s g))) = rounds
  /\ stop (fst (epoch rounds s g)) = StopIteration
  /\ Inv (snd (epoch rounds s g))
  /\ kept_normal (snd (epoch rounds s g))
  /\ forall pending,
       g = Resumed pending ->
       firstn (length (yielded pending)) (yielded (fst (epoch rounds s g)))
       = firstn rounds (yielded pending)
       /\ ((rounds <= length (yielded pending))%nat ->
           _batch_generator (snd (epoch rounds s g))
           = Some (Resumed (mkRun (skipn rounds (yielded pending))
                                  StopIteration))).
Proof.
  induction rounds as [|rounds IH]; intros s g Hs Hg; cbn [epoch].
  - unfold leave. cbn [fst snd yielded stop length].
    split; [reflexivity|]. split; [reflexivity|].
    split; [now apply Inv_generator|]. split; [exact Hg|].
    intros pending ->. split; [now rewrite firstn_nil|]. intros _.
    destruct pending as [ys st]. cbn in Hg |- *. now subst st.
  - destruct g as [|pending].
    + destruct (next_batch_fresh s Hs) as (batch & rest & -> & Hs1).
      destruct (IH (snd (_iter_batches s)) (Resumed (mkRun rest StopIteration))
                   Hs1 eq_refl) as (Hlen & Hstop & HInv & Hkept & _).
      unfold and_then. cbn [fst snd yield yielded stop length].
      split; [now rewrite Hlen|]. split; [exact Hstop|].
      split; [exact HInv|]. split; [exact Hkept|]. discriminate.
    + destruct pending as [[|batch rest] st]; cbn in Hg; subst st.
      * rewrite next_batch_exhausted.
        destruct (next_batch_fresh s Hs) as (batch & rest & -> & Hs1).
        destruct (IH (snd (_iter_batches s))
                     (Resumed (mkRun rest StopIteration)) Hs1 eq_refl)
          as (Hlen & Hstop & HInv & Hkept & _).
        unfold and_then. cbn [fst snd yield yielded stop length].
        split; [now rewrite Hlen|]. split; [exact Hstop|].
        split; [exact HInv|]. split; [exact Hkept|].
        intros pending [= <-]. cbn [yielded length firstn].
        split; [reflexivity|]. lia.
      * rewrite next_batch_pending.
        destruct (IH s (Resumed (mkRun rest StopIteration)) Hs eq_refl)
          as (Hlen & Hstop & HInv & Hkept & Hpend).
        destruct (Hpend _ eq_refl) as [Hfirst Hrest]. cbn [yielded] in *.
        unfold and_then. cbn [fst snd yield yielded stop length].
        split; [now rewrite Hlen|]. split; [exact Hstop|].
        split; [exact HInv|]. split; [exact Hkept|].
        intros pending [= <-]. cbn [yielded length firstn skipn].
        split; [now rewrite Hfirst|]. intros Hle. apply Hrest. lia.
Qed.

(** C1, as amended. On an indexed loader with [batches_per_epoch = n],
    as long as every pass over the source yields at least one batch and
    returns (which a property [Inv] of the loader warrants, one pass
    after the other), a call of [__iter__] yields exactly [n] batches and
    returns. The generator is kept across the calls: the batches that
    were pending in it come first, it is replaced by a new pass whenever
    it runs out, and what it has left is kept for the next call, for which
    the same holds again. *)
Theorem epochs_have_fixed_length self n :
  Inv self ->
  kept_normal self ->
  _vocab self <> None ->
  batches_per_epoch self = Some n ->
  length (yielded (fst (__iter__ self))) = Z.to_nat n
  /\ stop (fst (__iter__ self)) = StopIteration
  /\ (Inv (snd (__iter__ self))
      /\ kept_normal (snd (__iter__ self))
      /\ _vocab (snd (__iter__ self)) <> None
      /\ batches_per_epoch (snd (__iter__ self)) = Some n)
  /\ (exists g, _batch_generator (snd (__iter__ self)) = Some g)
  /\ forall pending,
       _batch_generator self = Some (Resumed pending) ->
       firstn (length (yielded pending)) (yielded (fst (__iter__ self)))
       = firstn (Z.to_nat n) (yielded pending)
       /\ ((Z.to_nat n <= length (yielded pending))%nat ->
           _batch_generator (snd (__iter__ self))
           = Some (Resumed (mkRun (skipn (Z.to_nat n) (yielded pending))
                                  StopIteration))).
Proof.
  intros Hs Hkept Hv Hn. unfold __iter__.
  destruct (_vocab self) as [vocab|] eqn:Hvocab; [|contradiction].
  rewrite Hn.
  set (g := match _batch_generator self with
            | Some g => g
            | None => Fresh
            end).
  assert (Hg : pending_normal g).
  { unfold kept_normal in Hkept. subst g.
    now destruct (_batch_generator self). }
  destruct (epoch_fixed_length (Z.to_nat n) self g Hs Hg)
    as (Hlen & Hstop & HInv & Hk & Hpend).
  assert (Hok : generator_ok g).
  { destruct g as [|r]; [exact I|]. cbn in Hg |- *. now rewrite Hg. }
  destruct (epoch_facts (Z.to_nat n) self g Hok)
    as ([(Hc & Hv' & _) _] & (g' & Hg' & _) & _).
  split; [exact Hlen|]. split; [exact Hstop|]. split.
  { split; [exact HInv|]. split; [exact Hk|]. split.
    - rewrite Hv', Hvocab. discriminate.
    - now rewrite Hc. }
  split; [now exists g'|].
  intros pending Hp. apply Hpend. subst g. now rewrite Hp.
Qed.
End FixedLength.
End Iteration.

(** * Further properties *)

(** ** Counting groups *)

Section GroupCounts.
Variable A : Type.
Implicit Types (l : list A) (n fuel : nat).

Lemma firstn_plus n m : forall l,
  firstn (n + m) l = firstn n l ++ firstn m (skipn n l).
Proof.
  induction n as [|n IH]; intros l; [reflexivity|].
  destruct l as [|x l]; cbn [Nat.add firstn skipn app].
  - now rewrite firstn_nil.
  - now rewrite IH.
Qed.

(** The number of groups is the number of records divided by the group
    size, rounded up. *)
Lemma groups_of_count fuel : forall l n,
  (0 < n)%nat -> (length l <= fuel)%nat ->
  length (groups_of fuel l n) = ((length l + n - 1) / n)%nat.
Proof.
  induction fuel as [|fuel IH]; intros l n Hn Hfuel; cbn [groups_of].
  - destruct l; [|cbn in Hfuel; lia]. cbn [length].
    symmetry. apply Nat.div_small. lia.
  - destruct l as [|x l].
    + rewrite firstn_nil. cbn [length]. symmetry. apply Nat.div_small. lia.
    + destruct (firstn n (x :: l)) as [|y s] eqn:Hs;
        [destruct n; [lia|discriminate]|].
      cbn [length].
      rewrite IH; [|exact Hn|rewrite length_skipn; cbn [length] in *; lia].
      rewrite length_skipn. cbn [length].
      destruct (Nat.le_gt_cases n (S (length l))) as [Hle|Hgt].
      * replace (S (length l) + n - 1)%nat
          with (S (length l) - n + n - 1 + 1 * n)%nat by lia.
        rewrite Nat.div_add by lia. lia.
      * replace (S (length l) - n)%nat with 0%nat by lia.
        rewrite (Nat.div_small (0 + n - 1)) by lia.
        assert (H : ((S (length l) + n - 1) / n = 1)%nat).
        { replace (S (length l) + n - 1)%nat
            with (length l + 1 * n)%nat by lia.
          rewrite Nat.div_add by lia. rewrite Nat.div_small by lia. lia. }
        lia.
Qed.
End GroupCounts.

Section Regrouping.
Variable A : Type.
Implicit Types (l : list A) (n fuel : nat).

(** More rounds than there are items change nothing. *)
Lemma groups_of_fuel fuel : forall fuel' l n,
  (0 < n)%nat -> (length l <= fuel)%nat -> (length l <= fuel')%nat ->
  groups_of fuel l n = groups_of fuel' l n.
Proof.
  induction fuel as [|fuel IH]; intros fuel' l n Hn Hf Hf'.
  - destruct l; [|cbn in Hf; lia].
    destruct fuel'; cbn; now rewrite ?firstn_nil.
  - destruct l as [|x l]; [destruct fuel'; cbn; now rewrite ?firstn_nil|].
    destruct fuel' as [|fuel']; [cbn in Hf'; lia|]. cbn [groups_of].
    destruct (firstn n (x :: l)); [reflexivity|]. f_equal.
    apply IH; [exact Hn| |]; rewrite length_skipn; cbn [length] in *; lia.
Qed.

Lemma groups_of_step l n :
  (0 < n)%nat -> l <> [] ->
  groups_of (length l) l n
  = firstn n l :: groups_of (length (skipn n l)) (skipn n l) n.
Proof.
  intros Hn Hl. destruct l as [|x l]; [contradiction|].
  cbn [length groups_of].
  destruct (firstn n (x :: l)) as [|y s] eqn:Hs;
    [destruct n; [lia|discriminate]|].
  f_equal. apply groups_of_fuel; [exact Hn| |lia].
  rewrite length_skipn. cbn [length]. lia.
Qed.

(** Behind a stretch of [q] whole groups the grouping starts afresh. *)
Lemma groups_of_app q : forall l1 l2 n,
  (0 < n)%nat -> length l1 = (q * n)%nat ->
  groups_of (length (l1 ++ l2)) (l1 ++ l2) n
  = groups_of (length l1) l1 n ++ groups_of (length l2) l2 n
  /\ Forall (fun g => length g = n) (groups_of (length l1) l1 n).
Proof.
  induction q as [|q IH]; intros l1 l2 n Hn Hlen.
  - destruct l1; [|discriminate]. split; [reflexivity|constructor].
  - assert (Hl1 : l1 <> []) by (destruct l1; [cbn in Hlen; lia|discriminate]).
    assert (Hl12 : l1 ++ l2 <> []) by (destruct l1; [contradiction|discriminate]).
    rewrite (groups_of_step (l1 ++ l2) n Hn Hl12).
    rewrite (groups_of_step l1 n Hn Hl1).
    assert (Hle : (n <= length l1)%nat) by (rewrite Hlen; cbn; lia).
    rewrite firstn_app, skipn_app.
    replace (n - length l1)%nat with 0%nat by lia.
    cbn [firstn skipn]. rewrite app_nil_r.
    destruct (IH (skipn n l1) l2 n Hn) as [Happ Hfull].
    { rewrite length_skipn, Hlen. cbn. lia. }
    rewrite Happ. split; [reflexivity|].
    constructor; [|exact Hfull]. rewrite length_firstn. lia.
Qed.
End Regrouping.

Section FullGroups.
Context {E : Collaborators}.
Implicit Types (l : list Instance) (n fuel : nat).

Lemma div_step a n : (0 < n)%nat -> (n <= a)%nat -> (a / n = S ((a - n) / n))%nat.
Proof.
  intros Hn Hle. replace a with (a - n + 1 * n)%nat at 1 by lia.
  rewrite Nat.div_add by lia. lia.
Qed.

(** Dropping the short group of a window drops the records after the last
    full group, and nothing else. *)
Lemma full_groups_of fuel : forall l n,
  (0 < n)%nat -> (length l <= fuel)%nat ->
  concat (full_groups (Z.of_nat n) (groups_of fuel l n))
  = firstn (length l / n * n) l
  /\ length (full_groups (Z.of_nat n) (groups_of fuel l n))
     = (length l / n)%nat.
Proof.
  induction fuel as [|fuel IH]; intros l n Hn Hfuel; cbn [groups_of].
  - destruct l; [|cbn in Hfuel; lia]. cbn.
    rewrite Nat.div_small by lia. now split.
  - destruct (Nat.le_gt_cases n (length l)) as [Hle|Hgt].
    + destruct (firstn n l) as [|y s] eqn:Hs.
      { apply (f_equal (@length _)) in Hs. rewrite length_firstn in Hs.
        cbn in Hs. lia. }
      cbn [full_groups]. rewrite <- Hs.
      assert (Hlen : length (firstn n l) = n) by (rewrite length_firstn; lia).
      rewrite Hlen.
      assert (Hfull : (Z.of_nat n <? Z.of_nat n) = false)
        by (apply Z.ltb_ge; lia).
      rewrite Hfull. cbn [concat length].
      destruct (IH (skipn n l) n Hn) as [Hc Hl];
        [rewrite length_skipn; lia|].
      rewrite Hc, Hl, length_skipn, (div_step (length l) n Hn Hle).
      split; [|reflexivity].
      cbn [Nat.mul]. now rewrite firstn_plus.
    + rewrite (Nat.div_small (length l) n) by lia. cbn [Nat.mul firstn].
      destruct (firstn n l) as [|y s] eqn:Hs; [now split|].
      cbn [full_groups]. rewrite <- Hs.
      assert (Hshort : (Z.of_nat (length (firstn n l)) <? Z.of_nat n) = true).
      { apply Z.ltb_lt. rewrite length_firstn. lia. }
      rewrite Hshort. now split.
Qed.
End FullGroups.

(** ** What the batch builder keeps and drops *)

Section BuilderMore.
Context {E : Collaborators}.
Implicit Types (self : MultiProcessDataLoader).

Lemma stop_batches_loop_batch_size self b groups :
  batch_size self = Some b ->
  stop (batches_loop self groups StopIteration) = StopIteration.
Proof.
  intros Hb. induction groups as [|batch rest IH]; cbn [batches_loop];
    [reflexivity|].
  unfold undersized. rewrite Hb.
  destruct (is_none (batch_sampler self) && drop_last self);
    [destruct (Z.of_nat (length batch) <? b)|]; cbn; auto.
Qed.

Lemma window_batches_batch_size self b instances :
  batch_sampler self = None -> batch_size self = Some b ->
  window_batches self instances
  = mkRun (map (tensorize self) (kept_groups self b instances)) StopIteration.
Proof.
  intros Hs Hb. unfold window_batches, window_groups, kept_groups.
  rewrite Hs, Hb. cbn [yielded stop].
  pose proof (stop_batches_loop_batch_size self b
                (lazy_groups_of instances b) Hb) as Hstop.
  destruct (batches_loop self (lazy_groups_of instances b) StopIteration)
    as [ys st] eqn:Hloop.
  cbn in Hstop. subst st. f_equal.
  change ys with (yielded (mkRun ys StopIteration)). rewrite <- Hloop.
  destruct (drop_last self) eqn:Hd.
  - now apply batches_loop_drop_last.
  - now apply batches_loop_keep_last.
Qed.

Lemma chunks_loop_batch_size self b chunks s :
  batch_sampler self = None -> batch_size self = Some b ->
  chunks_loop self chunks s
  = mkRun (map (tensorize self) (concat (map (kept_groups self b) chunks))) s.
Proof.
  intros Hs Hb. induction chunks as [|instances chunks IH];
    cbn [chunks_loop map concat]; [reflexivity|].
  rewrite IH, (window_batches_batch_size self b instances Hs Hb).
  unfold run_then. cbn [stop yielded]. now rewrite map_app.
Qed.

Lemma concat_concat_map {A B} (f : A -> list (list B)) (l : list A) :
  concat (concat (map f l)) = concat (map (fun x => concat (f x)) l).
Proof.
  induction l as [|x l IH]; cbn; [reflexivity|].
  now rewrite concat_app, IH.
Qed.

Lemma window_size_positive self m : 1 <= window_size self m.
Proof.
  unfold window_size.
  set (w := Z.max 1 (m / Z.max (num_workers self) 1)).
  assert (Hw : 1 <= w) by (subst w; lia).
  destruct (batch_size self) as [b|]; [|exact Hw].
  destruct ((1 <? w) && (1 <? b)) eqn:Hc; [|exact Hw].
  apply andb_true_iff in Hc. destruct Hc as [Hw1 Hb1].
  apply Z.ltb_lt in Hw1, Hb1.
  assert (1 <= (w + b - 1) / b) by (apply Z.div_le_lower_bound; lia).
  nia.
Qed.

(** The windows and groups of a pass in batch-size mode over a stream
    that comes to its end. *)
Lemma instances_to_batches_batch_size self vocab b (records : list Instance) :
  _vocab self = Some vocab ->
  batch_sampler self = None -> batch_size self = Some b ->
  _instances_to_batches self (mkRun records StopIteration)
  = mkRun
      (map (tensorize self)
         (concat
            (map (kept_groups self b)
               (yielded
                  (instance_chunks self
                     (mkRun
                        (map (fun i =>
                                index_fields vocab (apply_token_indexers i))
                             records)
                        StopIteration))))))
      StopIteration.
Proof.
  intros Hv Hs Hb. unfold _instances_to_batches. cbn [yielded stop].
  rewrite (map_until_indexed self vocab) by exact Hv.
  rewrite (chunks_loop_batch_size self b) by assumption.
  now rewrite stop_instance_chunks.
Qed.

(** Without [drop_last] and shuffling the windows and their groups, put
    end to end, are the stream. *)
Lemma kept_groups_concat self b (records : list Instance) :
  1 <= b -> shuffle self = false -> drop_last self = false ->
  concat
    (concat
       (map (kept_groups self b)
          (yielded (instance_chunks self (mkRun records StopIteration)))))
  = records.
Proof.
  intros Hb1 Hsh Hd. rewrite concat_concat_map.
  assert (Hk : forall w, concat (kept_groups self b w) = w).
  { intros w. unfold kept_groups. rewrite Hd.
    now apply lazy_groups_of_concat. }
  rewrite (map_ext _ (fun w => w)) by exact Hk. rewrite map_id.
  unfold instance_chunks. rewrite Hsh.
  destruct (max_instances_in_memory self) as [m|].
  - unfold lazy_groups_of_run. cbn [stop yielded].
    apply lazy_groups_of_concat, window_size_positive.
  - cbn. apply app_nil_r.
Qed.

(** X1. Without [drop_last] and shuffling, the batches of a pass are a
    partition of the indexed records, in their order: no record is lost,
    repeated or moved, whatever the window. *)
Theorem batches_partition_the_records self vocab b (it : Run Instance) :
  _vocab self = Some vocab ->
  batch_sampler self = None ->
  batch_size self = Some b ->
  1 <= b ->
  shuffle self = false ->
  drop_last self = false ->
  stop it = StopIteration ->
  exists groups,
    _instances_to_batches self it
    = mkRun (map (tensorize self) groups) StopIteration
    /\ concat groups
       = map (fun i => index_fields vocab (apply_token_indexers i))
             (yielded it).
Proof.
  intros Hv Hs Hb Hb1 Hsh Hd Hstop.
  destruct it as [records st]. cbn in Hstop. subst st. cbn [yielded].
  eexists. split.
  - apply (instances_to_batches_batch_size self vocab b); assumption.
  - now apply kept_groups_concat.
Qed.

(** X2. With [drop_last] and everything in memory, the batches hold the
    indexed records in their order, except for the last ones: as many as
    remain when the number of records is divided by the batch size. *)
Theorem drop_last_drops_the_remainder self vocab b (it : Run Instance) :
  _vocab self = Some vocab ->
  batch_sampler self = None ->
  batch_size self = Some b ->
  1 <= b ->
  shuffle self = false ->
  drop_last self = true ->
  max_instances_in_memory self = None ->
  stop it = StopIteration ->
  exists groups dropped,
    _instances_to_batches self it
    = mkRun (map (tensorize self) groups) StopIteration
    /\ map (fun i => index_fields vocab (apply_token_indexers i)) (yielded it)
       = concat groups ++ dropped
    /\ Z.of_nat (length dropped) = Z.of_nat (length (yielded it)) mod b
    /\ Z.of_nat (length groups) = Z.of_nat (length (yielded it)) / b.
Proof.
  intros Hv Hs Hb Hb1 Hsh Hd Hm Hstop.
  destruct it as [records st]. cbn in Hstop. subst st. cbn [yielded].
  set (indexed := map (fun i => index_fields vocab (apply_token_indexers i))
                      records).
  set (k := Z.to_nat b).
  assert (Hk : (0 < k)%nat) by (subst k; lia).
  assert (Hbk : b = Z.of_nat k) by (subst k; lia).
  destruct (full_groups_of (length indexed) indexed k Hk (le_n _))
    as [Hconcat Hcount].
  exists (full_groups b (lazy_groups_of indexed b)),
         (skipn (length indexed / k * k) indexed).
  assert (Hlen : length indexed = length records)
    by (subst indexed; apply length_map).
  split; [|split; [|split]].
  - rewrite (instances_to_batches_batch_size self vocab b) by assumption.
    unfold instance_chunks. rewrite Hm, Hsh. cbn [stop yielded map concat].
    unfold kept_groups. rewrite Hd. now rewrite app_nil_r.
  - unfold lazy_groups_of. fold k. rewrite Hbk at 1. rewrite Hconcat.
    symmetry. apply firstn_skipn.
  - rewrite length_skipn, Hlen, Hbk.
    rewrite <- Nat2Z.inj_mod. f_equal.
    pose proof (Nat.div_mod_eq (length records) k). lia.
  - unfold lazy_groups_of. fold k. rewrite Hbk at 1. rewrite Hcount, Hlen, Hbk.
    now rewrite Nat2Z.inj_div.
Qed.

(** The number of batches of a pass over records held in memory. *)
Lemma count_in_memory self vocab b (records : list Instance) :
  _vocab self = Some vocab ->
  batch_sampler self = None -> batch_size self = Some b -> 1 <= b ->
  max_instances_in_memory self = None ->
  (forall l, length (random_shuffle l) = length l) ->
  stop (_instances_to_batches self (mkRun records StopIteration))
  = StopIteration
  /\ Z.of_nat (length (yielded (_instances_to_batches self
                                  (mkRun records StopIteration))))
     = let n := Z.of_nat (length records) in
       if drop_last self || (n mod b =? 0) then n / b else 1 + n / b.
Proof.
  intros Hv Hs Hb Hb1 Hm Hshuffle.
  rewrite (instances_to_batches_batch_size self vocab b) by assumption.
  split; [reflexivity|]. cbn [yielded]. rewrite length_map.
  unfold instance_chunks. rewrite Hm. cbn [stop yielded map concat].
  rewrite app_nil_r.
  set (indexed := if shuffle self then _ else _).
  assert (Hlen : length indexed = length records).
  { subst indexed. destruct (shuffle self);
      [rewrite Hshuffle|]; apply length_map. }
  set (k := Z.to_nat b).
  assert (Hk : (0 < k)%nat) by (subst k; lia).
  assert (Hbk : b = Z.of_nat k) by (subst k; lia).
  unfold kept_groups, lazy_groups_of. fold k. cbv zeta.
  destruct (drop_last self); cbn [orb].
  - rewrite Hbk at 1.
    destruct (full_groups_of (length indexed) indexed k Hk (le_n _))
      as [_ ->].
    now rewrite Hlen, Hbk, Nat2Z.inj_div.
  - rewrite (groups_of_count _ (length indexed) indexed k Hk (le_n _)), Hlen.
    rewrite Hbk. rewrite <- Nat2Z.inj_mod, <- Nat2Z.inj_div.
    set (n := length records).
    pose proof (Nat.div_mod_eq n k) as Hdm.
    pose proof (Nat.mod_upper_bound n k ltac:(lia)) as Hmod.
    destruct (Z.eqb_spec (Z.of_nat (n mod k)) 0) as [Hz|Hz].
    + f_equal. assert (Hz' : (n mod k = 0)%nat) by lia.
      replace (n + k - 1)%nat with ((k - 1) + (n / k) * k)%nat by nia.
      rewrite Nat.div_add by lia. rewrite Nat.div_small by lia. lia.
    + rewrite <- (Nat2Z.inj_add 1). f_equal.
      replace (n + k - 1)%nat with ((n mod k - 1) + (1 + n / k) * k)%nat by nia.
      rewrite Nat.div_add by lia. rewrite Nat.div_small by lia. lia.
Qed.
End BuilderMore.

(** ** Shuffling *)

Section Shuffling.
Context {E : Collaborators}.
Implicit Types (self : MultiProcessDataLoader).

(** X3. Whether and however the records are shuffled, as long as
    [random.shuffle] only reorders the list it is given and
    [shuffle_iterable] only reorders a stream that comes to its end (of
    a stream that fails it may lose records), a pass without [drop_last]
    over a stream that comes to its end puts every record in exactly one
    batch. *)
Theorem shuffling_keeps_every_record self vocab b (it : Run Instance) :
  _vocab self = Some vocab ->
  batch_sampler self = None ->
  batch_size self = Some b ->
  1 <= b ->
  drop_last self = false ->
  stop it = StopIteration ->
  (forall l, Permutation (random_shuffle l) l) ->
  (forall r w,
      stop r = StopIteration ->
      Permutation (shuffle_iterable r w) (yielded r)) ->
  exists groups,
    _instances_to_batches self it
    = mkRun (map (tensorize self) groups) StopIteration
    /\ Permutation
         (concat groups)
         (map (fun i => index_fields vocab (apply_token_indexers i))
              (yielded it)).
Proof.
  intros Hv Hs Hb Hb1 Hd Hstop Hrandom Hiterable.
  destruct it as [records st]. cbn in Hstop. subst st. cbn [yielded].
  eexists. split.
  - apply (instances_to_batches_batch_size self vocab b); assumption.
  - rewrite concat_concat_map.
    assert (Hk : forall w, concat (kept_groups self b w) = w).
    { intros w. unfold kept_groups. rewrite Hd.
      now apply lazy_groups_of_concat. }
    rewrite (map_ext _ (fun w => w)) by exact Hk. rewrite map_id.
    unfold instance_chunks.
    destruct (max_instances_in_memory self) as [m|].
    + unfold lazy_groups_of_run.
      destruct (shuffle self); cbn [stop yielded];
        rewrite lazy_groups_of_concat by apply window_size_positive.
      * now apply Hiterable.
      * reflexivity.
    + cbn [stop yielded concat]. rewrite app_nil_r.
      destruct (shuffle self); [apply Hrandom|reflexivity].
Qed.
End Shuffling.

(** ** Windows *)

Section Windows.
Context {E : Collaborators}.
Implicit Types (self : MultiProcessDataLoader) (l : list Instance).

Lemma full_groups_app b (groups rest : list (list Instance)) :
  Forall (fun g => length g = Z.to_nat b) groups -> 0 <= b ->
  full_groups b (groups ++ rest) = groups ++ full_groups b rest.
Proof.
  intros Hfull Hb. induction Hfull as [|g groups Hg _ IH]; [reflexivity|].
  cbn [app full_groups]. rewrite Hg, IH.
  assert (Hlt : (Z.of_nat (Z.to_nat b) <? b) = false)
    by (apply Z.ltb_ge; lia).
  now rewrite Hlt.
Qed.

(** Cutting the stream into windows of [q] batches and each window into
    batches gives the batches of the stream, with or without the short
    batch at the end. *)
Lemma windows_regroup self b q fuel : forall l,
  1 <= b -> (0 < q)%nat -> (length l <= fuel)%nat ->
  concat (map (kept_groups self b)
              (groups_of fuel l (q * Z.to_nat b)))
  = kept_groups self b l.
Proof.
  intros l Hb Hq. revert l.
  assert (Hn : (0 < Z.to_nat b)%nat) by lia.
  assert (Hw : (0 < q * Z.to_nat b)%nat) by nia.
  assert (Hnil : kept_groups self b [] = []).
  { unfold kept_groups. now destruct (drop_last self). }
  induction fuel as [|fuel IH]; intros l Hfuel.
  - destruct l; [|cbn in Hfuel; lia]. now rewrite Hnil.
  - destruct l as [|x l]; [cbn; rewrite firstn_nil; now rewrite Hnil|].
    cbn [groups_of].
    destruct (firstn (q * Z.to_nat b) (x :: l)) as [|y s] eqn:Hs;
      [destruct (q * Z.to_nat b)%nat; [lia|discriminate]|].
    rewrite <- Hs. cbn [map concat].
    rewrite IH by (rewrite length_skipn; cbn [length] in *; lia).
    set (w := (q * Z.to_nat b)%nat) in *.
    destruct (Nat.le_gt_cases (length (x :: l)) w) as [Hshort|Hlong].
    + rewrite firstn_all2, skipn_all2 by exact Hshort.
      rewrite Hnil. apply app_nil_r.
    + assert (Hlen : length (firstn w (x :: l)) = (q * Z.to_nat b)%nat)
        by (rewrite length_firstn; subst w; lia).
      destruct (groups_of_app _ q (firstn w (x :: l)) (skipn w (x :: l))
                  (Z.to_nat b) Hn Hlen) as [Happ Hfull].
      rewrite firstn_skipn in Happ.
      unfold kept_groups, lazy_groups_of. rewrite Happ.
      destruct (drop_last self); [|reflexivity].
      rewrite (full_groups_app b _ _ Hfull) by lia.
      rewrite <- (app_nil_r (groups_of _ (firstn w (x :: l)) _)) at 1.
      rewrite (full_groups_app b _ [] Hfull) by lia.
      cbn [full_groups]. now rewrite app_nil_r.
Qed.

(** X4. When the window is a multiple of the batch size, reading the stream
    window by window changes nothing: without shuffling the batches are
    those of the whole stream, the last one dropped if it is short and
    [drop_last] is set. *)
Theorem windows_do_not_change_the_batches self vocab b m (it : Run Instance) :
  _vocab self = Some vocab ->
  batch_sampler self = None ->
  batch_size self = Some b ->
  1 <= b ->
  shuffle self = false ->
  max_instances_in_memory self = Some m ->
  (b | window_size self m) ->
  stop it = StopIteration ->
  _instances_to_batches self it
  = mkRun
      (map (tensorize self)
         (kept_groups self b
            (map (fun i => index_fields vocab (apply_token_indexers i))
                 (yielded it))))
      StopIteration.
Proof.
  intros Hv Hs Hb Hb1 Hsh Hm [q Hq] Hstop.
  destruct it as [records st]. cbn in Hstop. subst st. cbn [yielded].
  rewrite (instances_to_batches_batch_size self vocab b) by assumption.
  f_equal. f_equal.
  unfold instance_chunks. rewrite Hm, Hsh.
  unfold lazy_groups_of_run. cbn [stop yielded]. unfold lazy_groups_of at 1.
  pose proof (window_size_positive self m) as Hpos.
  assert (Hw : Z.to_nat (window_size self m)
               = (Z.to_nat q * Z.to_nat b)%nat).
  { rewrite Hq. rewrite Z2Nat.inj_mul; [reflexivity|nia|lia]. }
  rewrite Hw. apply windows_regroup; [exact Hb1|nia|apply le_n].
Qed.
End Windows.

Section WindowMore.
Context {E : Collaborators}.
Implicit Types (self : MultiProcessDataLoader).

(** X5. The window is at least one record and at least the share of a worker,
    [max_instances_in_memory // max(num_workers, 1)]; it exceeds that
    share by less than a batch; above a share of one record it is a
    multiple of the batch size; and without a batch size it is the share
    itself. *)
Theorem window_size_bounds self m :
  let share := Z.max 1 (m / Z.max (num_workers self) 1) in
  1 <= window_size self m
  /\ share <= window_size self m
  /\ match batch_size self with
     | Some b =>
         window_size self m < share + Z.max b 1
         /\ (1 < share -> 1 < b -> (b | window_size self m))
     | None => window_size self m = share
     end.
Proof.
  intros share. split; [apply window_size_positive|].
  destruct (batch_size self) as [b|] eqn:Hb.
  - destruct (Z_lt_le_dec 1 share) as [Hs|Hs];
      [destruct (Z_lt_le_dec 1 b) as [Hb1|Hb1]|].
    + destruct (window_size_rounded self m b Hb Hb1 Hs)
        as (q & Hq & -> & Hlo & Hhi).
      fold share in Hlo, Hhi.
      split; [exact Hlo|]. split; [lia|]. intros _ _. now exists q.
    + unfold window_size. rewrite Hb. fold share.
      assert (Hc : (1 <? b) = false) by now apply Z.ltb_ge.
      rewrite Hc, andb_false_r. split; [lia|]. split; lia.
    + unfold window_size. rewrite Hb. fold share.
      assert (Hc : (1 <? share) = false) by now apply Z.ltb_ge.
      rewrite Hc. cbn [andb]. split; [lia|]. split; lia.
  - unfold window_size. rewrite Hb. fold share. split; [lia|reflexivity].
Qed.
End WindowMore.

(** ** Batches chosen by a sampler *)

Lemma map_until_prefix {A B} (f : A -> Result B) xs ys rest s :
  Forall2 (fun x y => f x = Ok y) xs ys ->
  map_until f (xs ++ rest) s
  = mkRun (ys ++ yielded (map_until f rest s)) (stop (map_until f rest s)).
Proof.
  induction 1 as [|x y xs ys Hx _ IH]; cbn [app map_until].
  - now destruct (map_until f rest s).
  - now rewrite Hx, IH.
Qed.

Section Sampler.
Context {E : Collaborators}.
Implicit Types (self : MultiProcessDataLoader).

Lemma batches_loop_sampler self sampler groups s :
  batch_sampler self = Some sampler ->
  batches_loop self groups s = mkRun (map (tensorize self) groups) s.
Proof.
  intros Hs. induction groups as [|batch groups IH]; cbn [batches_loop map];
    [reflexivity|].
  unfold undersized. rewrite Hs. cbn [is_none andb]. now rewrite IH.
Qed.

(** X6. With a sampler and the records in memory, the batches are the
    records at the indices of the sampler's groups, one batch a group,
    whatever [drop_last] and the batch size; and at the first group with
    an index out of range the pass raises [IndexError], after the batches
    of the groups before it. *)
Theorem sampler_chooses_the_batches self sampler vocab (it : Run Instance)
    before groups :
  let instances :=
    map (fun i => index_fields vocab (apply_token_indexers i)) (yielded it) in
  _vocab self = Some vocab ->
  batch_sampler self = Some sampler ->
  max_instances_in_memory self = None ->
  shuffle self = false ->
  stop it = StopIteration ->
  Forall2 (fun indices batch => getitems instances indices = Some batch)
          before groups ->
  (get_batch_indices sampler instances = before ->
   _instances_to_batches self it
   = mkRun (map (tensorize self) groups) StopIteration)
  /\ (forall indices after,
         get_batch_indices sampler instances = before ++ indices :: after ->
         getitems instances indices = None ->
         _instances_to_batches self it
         = mkRun (map (tensorize self) groups)
                 (Raised (IndexError "list index out of range"))).
Proof.
  intros instances Hv Hs Hm Hsh Hstop Hgroups.
  destruct it as [records st]. cbn in Hstop. subst st. cbn [yielded] in *.
  assert (Hpass : _instances_to_batches self (mkRun records StopIteration)
                  = window_batches self instances).
  { unfold _instances_to_batches. cbn [yielded stop].
    rewrite (map_until_indexed self vocab) by exact Hv.
    unfold instance_chunks. rewrite Hm, Hsh. cbn [stop yielded chunks_loop].
    unfold run_then. fold instances.
    destruct (window_batches self instances) as [ys st].
    cbn [stop yielded]. destruct st; [now rewrite app_nil_r| |]; reflexivity. }
  rewrite Hpass. unfold window_batches, window_groups. rewrite Hs.
  set (f := fun batch_indices =>
              match getitems instances batch_indices with
              | Some batch => Ok batch
              | None => Raise (IndexError "list index out of range")
              end).
  assert (Hok : Forall2 (fun indices batch => f indices = Ok batch)
                        before groups).
  { eapply Forall2_impl; [|exact Hgroups].
    intros indices batch H. subst f. cbn beta. now rewrite H. }
  split.
  - intros ->. rewrite <- (app_nil_r before).
    rewrite (map_until_prefix f before groups [] StopIteration Hok).
    cbn [map_until yielded stop]. rewrite app_nil_r.
    now apply batches_loop_sampler with sampler.
  - intros indices after -> Hbad.
    rewrite (map_until_prefix f before groups (indices :: after)
               StopIteration Hok).
    assert (Hf : f indices = Raise (IndexError "list index out of range"))
      by (unfold f; now rewrite Hbad).
    cbn [map_until]. rewrite Hf. cbn [yielded stop]. rewrite app_nil_r.
    now apply batches_loop_sampler with sampler.
Qed.
End Sampler.

(** ** Length and iteration *)

Section LengthMore.
Context {E : Collaborators}.
Implicit Types (self : MultiProcessDataLoader).

(** One pass in the main process, with a vocabulary, whatever the number
    of workers. *)
Lemma iter_batches_main_process self vocab :
  is_some (_instances self) || (num_workers self <=? 0) = true ->
  _vocab self = Some vocab ->
  _iter_batches self
  = (_instances_to_batches self (fst (iter_instances self None)),
     set_instances (snd (iter_instances self None))
       (option_map
          (map (fun i => index_fields vocab (apply_token_indexers i)))
          (_instances (snd (iter_instances self None))))).
Proof.
  intros Hc Hv. unfold _iter_batches. rewrite Hc, Hv.
  destruct (iter_instances self None) as [instances self1]. cbn [fst snd].
  unfold indexed_in_place. now rewrite Hv.
Qed.

(** What a loader that keeps everything in memory iterates over: its
    cache, or what it reads when the cache is empty. *)
Lemma records_in_memory self :
  sound self -> max_instances_in_memory self = None ->
  exists records,
    fst (iter_instances self None) = mkRun records StopIteration
    /\ (if cached self then (mkRun [] StopIteration, self)
        else iter_instances self None)
       = (mkRun (if cached self then [] else records) StopIteration,
          if cached self then self else snd (iter_instances self None))
    /\ _instances (if cached self then self
                   else snd (iter_instances self None))
       = Some records.
Proof.
  intros (_ & _ & Hmem) Hm. destruct (Hmem Hm) as [Hsome Hstop].
  destruct (cached self) eqn:Hc.
  - unfold cached in Hc.
    destruct (_instances self) as [[|i l]|] eqn:Hi; try discriminate.
    exists (i :: l). rewrite (iter_instances_cached self i l None Hi).
    now repeat split.
  - rewrite (iter_instances_all self Hc), Hm. cbn [is_none fst snd].
    destruct (read_instances self) as [records st]. cbn in Hstop. subst st.
    exists records. now repeat split.
Qed.

(** X7. The number [__len__] announces is the number of batches [__iter__]
    yields, for a loader that keeps its records in memory and batches
    them by size. *)
Theorem length_agrees_with_iteration self :
  reachable self ->
  _vocab self <> None ->
  batches_per_epoch self = None ->
  max_instances_in_memory self = None ->
  batch_sampler self = None ->
  (forall l, length (random_shuffle l) = length l) ->
  stop (fst (__iter__ self)) = StopIteration
  /\ fst (__len__ self)
     = Ok (Z.of_nat (length (yielded (fst (__iter__ self))))).
Proof.
  intros Hr Hv Hbpe Hm Hs Hshuffle. apply reachable_sound in Hr.
  destruct (_vocab self) as [vocab|] eqn:Hvocab; [clear Hv|contradiction].
  destruct (valid_batch_size self (proj1 Hr) Hs) as (b & Hb & Hb1).
  destruct (records_in_memory self Hr Hm) as (records & Hiter & Hlen & Hcache).
  assert (Hmain : is_some (_instances self) || (num_workers self <=? 0) = true).
  { destruct Hr as (_ & _ & Hmem). destruct (Hmem Hm) as [-> _].
    reflexivity. }
  destruct (count_in_memory self vocab b records Hvocab Hs Hb Hb1 Hm Hshuffle)
    as [Hstop Hcount].
  unfold __iter__. rewrite Hvocab, Hbpe.
  rewrite (iter_batches_main_process self vocab Hmain Hvocab).
  cbn [fst]. rewrite Hiter. split; [exact Hstop|].
  rewrite Hcount.
  unfold __len__. rewrite Hbpe, Hm, Hlen. cbn [stop].
  rewrite Hcache, Hs, Hb.
  destruct b as [|p|p]; try lia.
  cbv zeta. now destruct (drop_last self || _).
Qed.
End LengthMore.

(** ** The announced length *)

Section LengthStable.
Context {E : Collaborators}.
Implicit Types (self : MultiProcessDataLoader).

Lemma iter_batches_holds k self :
  (0 < k)%nat -> holds k self -> holds k (snd (_iter_batches self)).
Proof.
  intros Hk (l & Hl & Hlen). unfold _iter_batches. rewrite Hl.
  cbn [is_some is_none negb orb].
  destruct l as [|i l]; [cbn in Hlen; lia|].
  rewrite (iter_instances_cached self i l _ Hl). cbn [snd].
  rewrite Hl. cbn [option_map set_instances _instances].
  eexists. split; [reflexivity|].
  unfold indexed_in_place. destruct (_vocab self); [|exact Hlen].
  now rewrite length_map.
Qed.

Lemma next_batch_holds k self g :
  (0 < k)%nat -> holds k self -> holds k (snd (next_batch self g)).
Proof.
  intros Hk Hs. unfold next_batch.
  assert (H : holds k (snd match g with
                           | Fresh => _iter_batches self
                           | Resumed r => (r, self)
                           end)).
  { destruct g; [now apply iter_batches_holds|exact Hs]. }
  destruct (match g with
            | Fresh => _iter_batches self
            | Resumed r => (r, self)
            end) as [r self1].
  now destruct (yielded r).
Qed.

Lemma epoch_holds k rounds : forall self g,
  (0 < k)%nat -> holds k self -> holds k (snd (epoch rounds self g)).
Proof.
  induction rounds as [|rounds IH]; intros self g Hk Hs; cbn [epoch];
    [exact Hs|].
  pose proof (next_batch_holds k self g Hk Hs) as H1.
  destruct (next_batch self g) as [[[batch|s] g1] self1]; cbn [snd] in H1.
  - now apply IH.
  - destruct s; try exact H1.
    pose proof (next_batch_holds k self1 Fresh Hk H1) as H2.
    destruct (next_batch self1 Fresh) as [[[batch|s2] g2] self2];
      cbn [snd] in H2.
    + now apply IH.
    + destruct s2; exact H2.
Qed.

Lemma len_of_cache self self' k :
  (0 < k)%nat -> holds k self -> holds k self' ->
  config self' = config self -> batch_sampler self = None ->
  fst (__len__ self') = fst (__len__ self) /\ snd (__len__ self) = self.
Proof.
  intros Hk (l & Hl & Hlen) (l' & Hl' & Hlen') Hc Hs.
  assert (Hcached : forall s m, _instances s = Some m -> length m = k ->
                                cached s = true).
  { intros s m Hm Hmk. unfold cached. rewrite Hm.
    destruct m; [cbn in Hmk; lia|reflexivity]. }
  unfold __len__. rewrite Hc.
  destruct (batches_per_epoch self); [now split|].
  destruct (max_instances_in_memory self); [now split|].
  rewrite (Hcached self l Hl Hlen), (Hcached self' l' Hl' Hlen').
  cbn [stop]. rewrite Hl, Hl', Hs, Hlen, Hlen'.
  destruct (batch_size self) as [[|p|p]|]; try (now split);
    destruct (drop_last self || _); now split.
Qed.

(** X8. On a loader that holds records and has no sampler, [__len__] leaves
    the loader as it is, and what it returns is changed neither by
    [index_with] nor by a call of [__iter__]. *)
Theorem length_is_stable self vocab :
  reachable self ->
  batch_sampler self = None ->
  cached self = true ->
  fst (__len__ (index_with self vocab)) = fst (__len__ self)
  /\ fst (__len__ (snd (__iter__ self))) = fst (__len__ self)
  /\ snd (__len__ self) = self.
Proof.
  intros Hr Hs Hc. unfold cached in Hc.
  destruct (_instances self) as [[|i l]|] eqn:Hi; try discriminate.
  set (k := length (i :: l)).
  assert (Hk : (0 < k)%nat) by (subst k; cbn; lia).
  assert (Hself : holds k self) by (now exists (i :: l)).
  split; [|split].
  - apply (len_of_cache self (index_with self vocab) k); try assumption;
      [|reflexivity].
    exists (map (index_fields vocab) (i :: l)). unfold index_with. cbn.
    rewrite Hi. split; [reflexivity|]. subst k. cbn. now rewrite length_map.
  - destruct (iter_evolves self) as ([[Hcfg _] _] & _);
      [apply (reachable_sound self Hr)|].
    apply (len_of_cache self (snd (__iter__ self)) k); try assumption.
    unfold __iter__. destruct (_vocab self); [|exact Hself].
    destruct (batches_per_epoch self);
      [now apply epoch_holds|now apply iter_batches_holds].
  - now apply (len_of_cache self self k).
Qed.
End LengthStable.

(** ** From construction to iteration *)

Section EndToEnd.
Context {E : Collaborators}.
Implicit Types (self : MultiProcessDataLoader) (c : Config).

Lemma valid_size_no_sampler c b :
  validate c = None -> batch_size c = Some b ->
  batch_sampler c = None /\ 1 <= b.
Proof.
  intros Hv Hb. apply validate_none_iff in Hv.
  unfold invalid, listed_invalid, below, is_none, is_some in Hv.
  rewrite Hb in Hv. repeat (apply orb_false_iff in Hv; destruct Hv as [Hv ?]).
  split; [now destruct (batch_sampler c)|now apply Z.ltb_ge].
Qed.

(** What the loader built by [__init__] and indexed by [index_with]
    iterates over when it reads in the main process. *)
Lemma records_of_indexed_loader c vocab self :
  __init__ c = Ok self -> num_workers c = 0 ->
  failure (read None) = None ->
  fst (iter_instances (index_with self vocab) None)
  = mkRun (map (fun r => index_fields vocab (apply_token_indexers r))
               (records (read None)))
          StopIteration
  /\ config (index_with self vocab) = c
  /\ _vocab (index_with self vocab) = Some vocab.
Proof.
  intros Hinit Hw Hf. unfold __init__ in Hinit.
  destruct (validate c); [discriminate|].
  assert (Hread : forall s,
            config s = c -> _vocab s = Some vocab ->
            read_instances s
            = mkRun (map (fun r => index_fields vocab (apply_token_indexers r))
                         (records (read None)))
                    StopIteration).
  { intros s Hc Hvoc. unfold read_instances, source_run, prepare.
    rewrite Hc, Hw, Hvoc, Hf. reflexivity. }
  destruct (max_instances_in_memory c) as [m|] eqn:Hm; cbn [is_none] in Hinit.
  - injection Hinit as <-. split; [|split; reflexivity].
    rewrite iter_instances_all by reflexivity. cbn [fst].
    now apply Hread.
  - rewrite iter_instances_all in Hinit by reflexivity.
    destruct (stop (read_instances (initial c))); try discriminate.
    injection Hinit as <-. cbn [initial config is_none]. rewrite Hm.
    cbn [is_none]. split; [|split; reflexivity].
    unfold read_instances at 1. cbn [initial config]. rewrite Hw.
    cbn [Z.leb Z.compare yielded]. unfold prepare at 1. cbn [initial _vocab].
    destruct (records (read None)) as [|r l] eqn:Hr.
    + rewrite iter_instances_all by reflexivity. cbn [fst].
      now apply Hread.
    + unfold index_with, iter_instances. cbn. now rewrite map_map.
Qed.

(** X9. A loader built with a batch size, without workers, shuffling and
    [drop_last], and then indexed, puts every record of the reader in
    exactly one batch, in the order of the reader; a record read into
    the cache by [__init__] has then been indexed twice. *)
Theorem every_record_is_batched c vocab b self :
  __init__ c = Ok self ->
  num_workers c = 0 ->
  batch_size c = Some b ->
  shuffle c = false ->
  drop_last c = false ->
  batches_per_epoch c = None ->
  failure (read None) = None ->
  exists groups,
    fst (__iter__ (index_with self vocab))
    = mkRun (map (tensorize (index_with self vocab)) groups) StopIteration
    /\ concat groups = map (twice_indexed vocab) (records (read None)).
Proof.
  intros Hinit Hw Hb Hsh Hd Hn Hf.
  destruct (records_of_indexed_loader c vocab self Hinit Hw Hf)
    as (Hrec & Hc & Hvoc).
  assert (Hval : validate c = None).
  { unfold __init__ in Hinit. now destruct (validate c). }
  destruct (valid_size_no_sampler c b Hval Hb) as [Hs Hb1].
  set (loader := index_with self vocab) in *.
  assert (Hmain : is_some (_instances loader) || (num_workers loader <=? 0)
                  = true).
  { rewrite Hc, Hw. apply orb_true_r. }
  unfold __iter__. rewrite Hvoc, Hc, Hn.
  rewrite (iter_batches_main_process loader vocab Hmain Hvoc). cbn [fst].
  rewrite Hrec.
  rewrite (instances_to_batches_batch_size loader vocab b)
    by (rewrite ?Hc; assumption).
  eexists. split; [reflexivity|].
  rewrite kept_groups_concat by (rewrite ?Hc; assumption).
  now rewrite map_map.
Qed.

(** X10. With [max_instances_in_memory = m], construction reads nothing and
    bounds both queues: the instance queue by [4 m], the batch queue by
    a number between [4] and [4 m]. *)
Theorem queues_are_bounded c m :
  validate c = None ->
  max_instances_in_memory c = Some m ->
  exists self,
    __init__ c = Ok self
    /\ _instances self = None
    /\ _max_instance_queue_size self = Some (4 * m)
    /\ exists bound,
         _max_batch_queue_size self = Some bound /\ 4 <= bound <= 4 * m.
Proof.
  intros Hv Hm. exists (initial c).
  unfold __init__. rewrite Hv, Hm. cbn [is_none].
  split; [reflexivity|]. split; [reflexivity|].
  unfold initial. cbn [_max_instance_queue_size _max_batch_queue_size].
  rewrite Hm. cbn [option_map].
  split; [f_equal; lia|]. eexists. split; [reflexivity|].
  apply validate_none_iff in Hv. unfold invalid, listed_invalid, below in Hv.
  rewrite Hm in Hv.
  repeat match goal with
         | H : _ || _ = false |- _ =>
             apply orb_false_iff in H; destruct H
         end.
  destruct (batch_size c) as [b|].
  - assert (1 <= b) by now apply Z.ltb_ge.
    assert (b <= m) by now apply Z.ltb_ge.
    assert (Hone : or_one (Some b) = b) by (destruct b; (reflexivity || lia)).
    rewrite Hone. split.
    + apply Z.div_le_lower_bound; nia.
    + apply Z.div_le_upper_bound; nia.
  - assert (1 <= m) by now apply Z.ltb_ge.
    cbn [or_one]. rewrite Z.div_1_r. lia.
Qed.

Lemma iter_batches_streams self :
  streams self -> streams (snd (_iter_batches self)).
Proof.
  intros [Hm Hi]. unfold _iter_batches, iter_instances. rewrite Hi.
  destruct (max_instances_in_memory self) eqn:Hmax; [|contradiction].
  cbn [is_some is_none negb orb].
  destruct (num_workers self <=? 0);
    [|destruct (set_up self (_max_batch_queue_size self))];
    cbn [snd]; split; cbn;
    rewrite ?Hmax, ?Hi; try assumption; try discriminate; reflexivity.
Qed.

Lemma next_batch_streams self g :
  streams self -> streams (snd (next_batch self g)).
Proof.
  intros Hs. unfold next_batch.
  assert (H : streams (snd match g with
                           | Fresh => _iter_batches self
                           | Resumed r => (r, self)
                           end)).
  { destruct g; [now apply iter_batches_streams|exact Hs]. }
  destruct (match g with
            | Fresh => _iter_batches self
            | Resumed r => (r, self)
            end) as [r self1].
  now destruct (yielded r).
Qed.

Lemma epoch_streams rounds : forall self g,
  streams self -> streams (snd (epoch rounds self g)).
Proof.
  induction rounds as [|rounds IH]; intros self g Hs; cbn [epoch];
    [exact Hs|].
  pose proof (next_batch_streams self g Hs) as H1.
  destruct (next_batch self g) as [[[batch|s] g1] self1]; cbn [snd] in H1.
  - now apply IH.
  - destruct s; try exact H1.
    pose proof (next_batch_streams self1 Fresh H1) as H2.
    destruct (next_batch self1 Fresh) as [[[batch|s2] g2] self2];
      cbn [snd] in H2.
    + now apply IH.
    + destruct s2; exact H2.
Qed.

(** X11. Whatever is done with a loader, it caches the records exactly when
    [max_instances_in_memory] is unset: with it no operation ever stores
    a record, without it the cache is there from construction on. *)
Theorem loaders_cache_exactly_when_unbounded self :
  reachable self ->
  match max_instances_in_memory self with
  | Some _ => _instances self = None
  | None => is_some (_instances self) = true
  end.
Proof.
  intros Hr.
  destruct (max_instances_in_memory self) as [m|] eqn:Hm;
    [|now apply (reachable_sound self Hr)].
  assert (H : streams self); [|apply H].
  assert (Hmax : max_instances_in_memory self <> None) by congruence.
  clear m Hm.
  induction Hr as [c self Hinit|self vocab _ IH|self Hr IH Hstop|self Hr IH Hlen].
  - unfold __init__ in Hinit. destruct (validate c); [discriminate|].
    destruct (max_instances_in_memory c) eqn:Hm; cbn [is_none] in Hinit.
    + injection Hinit as <-. split; [exact Hmax|reflexivity].
    + rewrite iter_instances_all in Hinit by reflexivity.
      destruct (stop (read_instances (initial c))); try discriminate.
      injection Hinit as <-. cbn in Hmax. rewrite Hm in Hmax. cbn in Hmax.
      contradiction.
  - destruct (IH Hmax) as [_ Hi]. split; [exact Hmax|].
    unfold index_with. cbn. now rewrite Hi.
  - destruct (iter_evolves self) as ([[Hc _] _] & _);
      [apply (reachable_sound self Hr)|].
    rewrite Hc in Hmax. specialize (IH Hmax).
    unfold __iter__. destruct (_vocab self); [|exact IH].
    destruct (batches_per_epoch self);
      [now apply epoch_streams|now apply iter_batches_streams].
  - destruct (len_evolves self) as [[[Hc _] _] _].
    rewrite Hc in Hmax. specialize (IH Hmax).
    unfold __len__. destruct (batches_per_epoch self); [exact IH|].
    destruct IH as [Hm Hi].
    destruct (max_instances_in_memory self) eqn:Hmx; [|contradiction].
    split; [cbn; congruence|exact Hi].
Qed.
End EndToEnd.

(** ** The consuming loop, whatever arrives *)

Lemma fan_in_safe {T} n (trace : list (QueueMessage T)) : forall d,
  (exists rest,
      values_of trace = yielded (fan_run (fan_in n trace d)) ++ rest)
  /\ (stop (fan_run (fan_in n trace d)) = StopIteration ->
      n <= d + Z.of_nat (dones_of trace))
  /\ (forall e,
         stop (fan_run (fan_in n trace d)) = Raised e ->
         exists msg tb, e = WorkerError msg /\ In (Error msg tb) trace)
  /\ (stop (fan_run (fan_in n trace d)) = Blocked ->
      existsb is_error trace = false
      /\ d + Z.of_nat (dones_of trace) < n).
Proof.
  induction trace as [|m trace IH]; intros d; cbn [fan_in];
    destruct (Z.ltb_spec d n) as [Hlt|Hge]; cbn [fan_run yielded stop].
  - repeat split; try discriminate; try (cbn; lia). now exists [].
  - repeat split; try discriminate; try (cbn; lia). now exists [].
  - destruct m as [x|msg tb|].
    + destruct (IH d) as ((rest & Hrest) & Hstop & Hraise & Hblock).
      cbn [fan_run yielded stop yield values_of dones_of existsb is_error orb].
      split; [exists rest; now rewrite Hrest|].
      split; [exact Hstop|]. split; [|exact Hblock].
      intros e He. destruct (Hraise e He) as (msg & tb & -> & Hin).
      exists msg, tb. split; [reflexivity|now right].
    + cbn [values_of]. split; [now exists (values_of trace)|].
      split; [discriminate|]. split; [|discriminate].
      intros e [= <-]. exists msg, tb. split; [reflexivity|now left].
    + destruct (IH (d + 1)) as ((rest & Hrest) & Hstop & Hraise & Hblock).
      cbn [values_of dones_of existsb is_error orb].
      split; [now exists rest|].
      split; [intros H; apply Hstop in H; lia|]. split.
      * intros e He. destruct (Hraise e He) as (msg & tb & -> & Hin).
        exists msg, tb. split; [reflexivity|now right].
      * intros H. apply Hblock in H. split; [apply H|lia].
  - split; [now exists (values_of (m :: trace))|].
    split; [intros _; pose proof (Nat2Z.is_nonneg (dones_of (m :: trace))); lia|].
    split; discriminate.
Qed.

(** X12. The loop of [_gather_instances] and of [_iter_batches] yields the
    values in the order they arrive and none that did not arrive; it
    returns only when it has received one end marker for every worker; it
    raises only a [WorkerError], with the text of an error message that
    arrived; and when it waits for ever no error has arrived and an end
    marker is missing. *)
Theorem consuming_loop_is_safe {T} (num_workers : Z)
    (trace : list (QueueMessage T)) :
  let f := fan_in num_workers trace 0 in
  (exists rest, values_of trace = yielded (fan_run f) ++ rest)
  /\ (stop (fan_run f) = StopIteration ->
      num_workers <= Z.of_nat (dones_of trace))
  /\ (forall e,
         stop (fan_run f) = Raised e ->
         exists msg tb, e = WorkerError msg /\ In (Error msg tb) trace)
  /\ (stop (fan_run f) = Blocked ->
      existsb is_error trace = false
      /\ Z.of_nat (dones_of trace) < num_workers).
Proof.
  intros f. subst f.
  destruct (fan_in_safe num_workers trace 0) as (Hv & Hs & Hr & Hb).
  split; [exact Hv|]. split; [intros H; apply Hs in H; lia|].
  split; [exact Hr|]. intros H. apply Hb in H. split; [apply H|lia].
Qed.

(** ** Workers that all succeed *)

Lemma interleaving_skip {A} (streams : list (list A)) merged :
  interleaving streams merged -> interleaving ([] :: streams) merged.
Proof.
  induction 1 as [streams H|before x s after merged _ IH].
  - apply interleaving_done. now constructor.
  - exact (interleaving_next ([] :: before) x s after merged IH).
Qed.

(** Serving the producers one after the other is one interleaving. *)
Lemma interleaving_concat {A} (streams : list (list A)) :
  interleaving streams (concat streams).
Proof.
  induction streams as [|s streams IH]; cbn [concat].
  - apply interleaving_done. constructor.
  - induction s as [|x s IHs]; cbn [app].
    + now apply interleaving_skip.
    + exact (interleaving_next [] x s streams _ IHs).
Qed.

Lemma concat_middle {A} (before : list (list A)) s after :
  concat (before ++ s :: after) = concat before ++ s ++ concat after.
Proof. now rewrite concat_app. Qed.

Lemma dones_of_app {T} (a b : list (QueueMessage T)) :
  dones_of (a ++ b) = (dones_of a + dones_of b)%nat.
Proof.
  induction a as [|m a IH]; [reflexivity|].
  destruct m; cbn [app dones_of]; now rewrite IH.
Qed.

Lemma interleaving_counts {T} (streams : list (list (QueueMessage T))) merged :
  interleaving streams merged ->
  dones_of merged = dones_of (concat streams)
  /\ existsb is_error merged = existsb is_error (concat streams).
Proof.
  induction 1 as [streams H|before x s after merged _ [IHd IHe]].
  - assert (Hc : concat streams = []).
    { induction H as [|s streams -> _ IH]; [reflexivity|exact IH]. }
    now rewrite Hc.
  - rewrite concat_middle in *. rewrite !dones_of_app in *.
    rewrite !existsb_app in *.
    destruct x; cbn [app dones_of existsb is_error orb]; rewrite ?IHd, ?IHe.
    + split; reflexivity.
    + split; [reflexivity|]. now rewrite !orb_true_r.
    + split; [lia|reflexivity].
Qed.

Lemma interleaving_last {T} (streams : list (list (QueueMessage T))) merged :
  interleaving streams merged ->
  Forall (fun s => last s Done = Done) streams ->
  last merged Done = Done.
Proof.
  induction 1 as [streams H|before x s after merged Hm IH]; intros Hl;
    [reflexivity|].
  apply Forall_app in Hl. destruct Hl as [Hb Hl].
  apply Forall_cons_iff in Hl. destruct Hl as [Hx Ha].
  destruct merged as [|y merged].
  - inversion Hm as [streams H Hs|]; subst.
    apply Forall_app in H. destruct H as [_ H].
    apply Forall_cons_iff in H. destruct H as [-> _]. exact Hx.
  - change (last (y :: merged) Done = Done). apply IH.
    apply Forall_app. split; [exact Hb|]. constructor; [|exact Ha].
    destruct s; [reflexivity|exact Hx].
Qed.

Lemma interleaving_values {T} (streams : list (list (QueueMessage T))) merged :
  interleaving streams merged ->
  interleaving (map values_of streams) (values_of merged).
Proof.
  induction 1 as [streams H|before x s after merged _ IH].
  - apply interleaving_done. apply Forall_forall. intros v Hv.
    apply in_map_iff in Hv. destruct Hv as (s & <- & Hs).
    rewrite Forall_forall in H. now rewrite (H s Hs).
  - rewrite map_app in *. cbn [map] in *.
    destruct x; cbn [values_of]; [|exact IH|exact IH].
    now apply interleaving_next.
Qed.

Lemma dones_of_last {T} (trace : list (QueueMessage T)) :
  trace <> [] -> last trace Done = Done -> (1 <= dones_of trace)%nat.
Proof.
  induction trace as [|m trace IH]; [congruence|]. intros _ Hl.
  destruct trace as [|m' trace].
  - cbn in Hl. subst m. cbn. lia.
  - assert (H : (1 <= dones_of (m' :: trace))%nat)
      by (apply IH; [discriminate|exact Hl]).
    destruct m; cbn [dones_of] in *; lia.
Qed.

(** When no error arrives and the last message is the last end marker,
    the consuming loop yields every value and returns. *)
Lemma fan_in_complete {T} n (trace : list (QueueMessage T)) : forall d,
  existsb is_error trace = false ->
  last trace Done = Done ->
  d + Z.of_nat (dones_of trace) = n ->
  fan_in n trace d
  = mkFanIn (mkRun (values_of trace) StopIteration) (dones_of trace) [].
Proof.
  induction trace as [|m trace IH]; intros d He Hl Hd; cbn [fan_in].
  - cbn in Hd. assert (Hlt : (d <? n) = false) by (apply Z.ltb_ge; lia).
    now rewrite Hlt.
  - assert (H1 : (1 <= dones_of (m :: trace))%nat)
      by (apply dones_of_last; [discriminate|exact Hl]).
    assert (Hlt : (d <? n) = true) by (apply Z.ltb_lt; lia).
    rewrite Hlt. cbn [existsb] in He. apply orb_false_iff in He.
    destruct He as [Hm He].
    assert (Hl' : last trace Done = Done)
      by (destruct trace; [reflexivity|exact Hl]).
    destruct m as [x|e tb|]; [|discriminate|]; cbn [values_of dones_of] in *.
    + rewrite (IH d); [reflexivity|assumption|assumption|assumption].
    + rewrite (IH (d + 1)); [reflexivity|assumption|assumption|lia].
Qed.

(** The messages of workers whose bodies all return, however the queue
    interleaves them. *)
Lemma arrivals_of_returning_bodies {T} fmt (bodies : list (Run T)) trace :
  Forall (fun body => stop body = StopIteration) bodies ->
  interleaving (map (worker_messages fmt) bodies) trace ->
  existsb is_error trace = false
  /\ last trace Done = Done
  /\ dones_of trace = length bodies
  /\ interleaving (map (@yielded T) bodies) (values_of trace).
Proof.
  intros Hb Hi.
  assert (Hshape : forall body, In body bodies ->
            worker_messages fmt body = map (@Value T) (yielded body) ++ [Done]).
  { intros body Hin. rewrite Forall_forall in Hb.
    unfold worker_messages. now rewrite (Hb body Hin). }
  assert (Hv : forall xs : list T,
            values_of (map (@Value T) xs ++ [Done]) = xs
            /\ dones_of (map (@Value T) xs ++ [Done]) = 1%nat
            /\ existsb is_error (map (@Value T) xs ++ [Done]) = false
            /\ last (map (@Value T) xs ++ [Done]) Done = Done).
  { intros xs. rewrite last_last.
    induction xs as [|x xs (IH1 & IH2 & IH3 & _)]; [now cbn|].
    cbn [map app values_of dones_of existsb is_error orb].
    now rewrite IH1, IH2, IH3. }
  destruct (interleaving_counts _ _ Hi) as [Hd He].
  split; [|split; [|split]].
  - rewrite He. clear - Hshape Hv.
    induction bodies as [|body bodies IH]; [reflexivity|].
    cbn [map concat]. rewrite existsb_app, IH.
    + rewrite (Hshape body (or_introl eq_refl)).
      now destruct (Hv (yielded body)) as (_ & _ & -> & _).
    + intros b Hin. apply Hshape. now right.
  - apply (interleaving_last _ _ Hi). apply Forall_forall. intros s Hs.
    apply in_map_iff in Hs. destruct Hs as (body & <- & Hin).
    rewrite (Hshape body Hin). apply Hv.
  - rewrite Hd. clear - Hshape Hv.
    induction bodies as [|body bodies IH]; [reflexivity|].
    cbn [map concat length]. rewrite dones_of_app, IH.
    + rewrite (Hshape body (or_introl eq_refl)).
      now destruct (Hv (yielded body)) as (_ & -> & _).
    + intros b Hin. apply Hshape. now right.
  - apply interleaving_values in Hi. rewrite map_map in Hi.
    erewrite map_ext_in in Hi; [exact Hi|].
    intros body Hin. cbn beta. rewrite (Hshape body Hin). apply Hv.
Qed.

Section WorkersMore.
Context {E : Collaborators}.
Implicit Types (self : MultiProcessDataLoader).

Lemma instance_worker_returns self worker_id :
  stop (instance_worker_body self worker_id) = StopIteration ->
  yielded (instance_worker_body self worker_id)
  = records (read (worker_info self worker_id)).
Proof.
  unfold instance_worker_body.
  destruct (records (read (worker_info self worker_id))) as [|i l] eqn:Hr;
    [now rewrite <- Hr|].
  destruct (indexed_text_field i); [discriminate|]. now rewrite <- Hr.
Qed.

Lemma length_worker_ids self :
  0 < num_workers self ->
  num_workers self = 0 + Z.of_nat (length (worker_ids self)).
Proof. intros H. unfold worker_ids. rewrite length_seq. lia. Qed.

(** X13. With workers that all read their records to the end, and however the
    queue interleaves their messages, [iter_instances] yields every
    record of every worker once, prepared, the records of one worker in
    the order it read them, and returns; without
    [max_instances_in_memory] the cache then holds exactly what was
    yielded, with it the loader is unchanged. This is so once the workers
    are started; when their set-up raises, [iter_instances] raises that
    exception and has yielded nothing. *)
Theorem gathered_records_are_the_shards self :
  0 < num_workers self ->
  cached self = false ->
  (forall worker_id,
      In worker_id (worker_ids self) ->
      stop (instance_worker_body self (Z.of_nat worker_id)) = StopIteration) ->
  interleaving
    (map (fun worker_id => _instance_worker self (Z.of_nat worker_id))
         (worker_ids self))
    (instance_arrivals
       (map (fun worker_id => _instance_worker self (Z.of_nat worker_id))
            (worker_ids self))) ->
  match set_up self (_max_instance_queue_size self) with
  | Some e =>
      iter_instances self None
      = (mkRun [] (Raised e),
         if is_none (max_instances_in_memory self)
         then set_instances self (Some [])
         else self)
  | None =>
      exists received,
        fst (iter_instances self None)
        = mkRun (map (prepare self) received) StopIteration
        /\ interleaving
             (map (fun worker_id =>
                     records (read (worker_info self (Z.of_nat worker_id))))
                  (worker_ids self))
             received
        /\ snd (iter_instances self None)
           = if is_none (max_instances_in_memory self)
             then set_instances self (Some (map (prepare self) received))
             else self
  end.
Proof.
  intros Hw Hc Hret Hi.
  assert (Hn : (num_workers self <=? 0) = false) by (apply Z.leb_gt; lia).
  destruct (set_up self (_max_instance_queue_size self)) as [e|] eqn:Hsetup.
  { rewrite (iter_instances_all self Hc). unfold read_instances.
    now rewrite Hn, Hsetup. }
  unfold _instance_worker in Hi. rewrite <- map_map in Hi.
  apply arrivals_of_returning_bodies in Hi.
  2:{ apply Forall_forall. intros body Hin. apply in_map_iff in Hin.
      destruct Hin as (worker_id & <- & Hin). now apply Hret. }
  destruct Hi as (He & Hl & Hd & Hv). rewrite length_map in Hd.
  rewrite map_map in He, Hl, Hd. do 2 rewrite map_map in Hv.
  assert (Hread : read_instances self
                  = mkRun (map (prepare self)
                             (values_of
                                (instance_arrivals
                                   (map (fun worker_id =>
                                           _instance_worker self
                                             (Z.of_nat worker_id))
                                        (worker_ids self)))))
                          StopIteration).
  { unfold read_instances, _gather_instances.
    rewrite Hn, Hsetup. cbv zeta. cbn [fan_run].
    unfold _instance_worker.
    rewrite (fan_in_complete (num_workers self) _ 0 He Hl);
      [reflexivity|].
    rewrite Hd. symmetry. now apply length_worker_ids. }
  eexists. split; [|split].
  - unfold iter_instances, cached in *.
    destruct (_instances self) as [[|i l]|]; [| discriminate |];
      cbn [fst pulled]; exact Hread.
  - assert (Hrec : map (fun worker_id =>
                           yielded (instance_worker_body self
                                      (Z.of_nat worker_id)))
                        (worker_ids self)
                    = map (fun worker_id =>
                             records (read (worker_info self
                                              (Z.of_nat worker_id))))
                          (worker_ids self)).
    { apply map_ext_in. intros worker_id Hin.
      apply instance_worker_returns. now apply Hret. }
    rewrite <- Hrec. exact Hv.
  - unfold iter_instances, cached in *.
    destruct (_instances self) as [[|i l]|]; [| discriminate |];
      cbn [snd pulled]; now rewrite Hread.
Qed.

(** X14. With batch workers that all build their batches to the end, and
    however the queue interleaves their messages, a pass of
    [_iter_batches] yields every batch of every worker once, the batches
    of one worker in the order it built them, returns and leaves the
    loader as it was. Nothing is written to the error stream; the end
    markers, one a worker, are the only messages received and not
    acknowledged; the teardown acknowledges them, which leaves on the
    closed queue only what was still in flight, and calls [terminate()]
    on every worker that answers [is_alive()], and on no other. This is
    so once the workers are started; when their set-up raises, the pass
    raises that exception, has yielded nothing, and there is no
    teardown. *)
Theorem batch_workers_are_drained self :
  0 < num_workers self ->
  _instances self = None ->
  (forall worker_id,
      In worker_id (worker_ids self) ->
      stop (batch_worker_body self (Z.of_nat worker_id)) = StopIteration) ->
  interleaving
    (map (fun worker_id => _batch_worker self (Z.of_nat worker_id))
         (worker_ids self))
    (batch_arrivals
       (map (fun worker_id => _batch_worker self (Z.of_nat worker_id))
            (worker_ids self))) ->
  match set_up self (_max_batch_queue_size self) with
  | Some e =>
      _iter_batches self = (mkRun [] (Raised e), self)
      /\ batch_teardown self = None
  | None =>
      exists batches,
        _iter_batches self = (mkRun batches StopIteration, self)
        /\ interleaving
             (map (fun worker_id =>
                     yielded (batch_worker_body self (Z.of_nat worker_id)))
                  (worker_ids self))
             batches
        /\ stderr (batch_fan_in self) = []
        /\ unacknowledged (batch_fan_in self) = Z.to_nat (num_workers self)
        /\ exists workers q,
             batch_teardown self = Some (workers, q)
             /\ map pid workers = worker_ids self
             /\ Forall (fun worker =>
                          is_alive worker = alive_at_join (pid worker)
                          /\ terminated worker = is_alive worker)
                       workers
             /\ acknowledgments
                  (left_on_queue (Z.to_nat (num_workers self))) q
                = Z.to_nat (num_workers self)
             /\ unfinished_tasks q = in_flight
             /\ closed q = true
  end.
Proof.
  intros Hw Hc Hret Hi.
  assert (Hn : (num_workers self <=? 0) = false) by (apply Z.leb_gt; lia).
  destruct (set_up self (_max_batch_queue_size self)) as [e|] eqn:Hsetup.
  { unfold _iter_batches, batch_teardown. rewrite Hc, Hsetup.
    cbn [is_some is_none negb orb]. now rewrite Hn. }
  unfold _batch_worker in Hi. rewrite <- map_map in Hi.
  apply arrivals_of_returning_bodies in Hi.
  2:{ apply Forall_forall. intros body Hin. apply in_map_iff in Hin.
      destruct Hin as (worker_id & <- & Hin). now apply Hret. }
  destruct Hi as (He & Hl & Hd & Hv). rewrite length_map in Hd.
  rewrite map_map in He, Hl, Hd. do 2 rewrite map_map in Hv.
  assert (Hlen : length (worker_ids self) = Z.to_nat (num_workers self))
    by (unfold worker_ids; now rewrite length_seq).
  assert (Hfan : batch_fan_in self
                 = mkFanIn (mkRun (values_of
                                     (batch_arrivals
                                        (map (fun worker_id =>
                                                _batch_worker self
                                                  (Z.of_nat worker_id))
                                             (worker_ids self))))
                                  StopIteration)
                           (Z.to_nat (num_workers self)) []).
  { unfold batch_fan_in, _batch_worker.
    rewrite (fan_in_complete (num_workers self) _ 0 He Hl).
    - now rewrite Hd, Hlen.
    - rewrite Hd. symmetry. now apply length_worker_ids. }
  eexists. split; [|split; [|split; [|split]]].
  - unfold _iter_batches. rewrite Hc. cbn [is_some is_none negb orb].
    rewrite Hn, Hsetup, Hfan. reflexivity.
  - exact Hv.
  - now rewrite Hfan.
  - now rewrite Hfan.
  - unfold batch_teardown, teardown. rewrite Hsetup, Hfan.
    cbn [fan_run stop unacknowledged].
    pose proof (join_workers_spec (started_workers self)
                  (close (left_on_queue (Z.to_nat (num_workers self)))))
      as Hjoin.
    destruct (_join_workers (started_workers self)
                (close (left_on_queue (Z.to_nat (num_workers self)))))
      as [workers q].
    destruct Hjoin as (_ & Hworkers & Hacks & Hclosed).
    destruct (joined_workers self workers Hworkers) as [Hpid Hterm].
    assert (Hstarted : length (started_workers self)
                       = Z.to_nat (num_workers self))
      by (unfold started_workers; now rewrite length_map).
    unfold acknowledgments in *.
    cbn [close left_on_queue unfinished_tasks closed] in *.
    rewrite Hstarted in Hacks.
    exists workers, q. repeat split; try assumption; lia.
Qed.
End WorkersMore.

(** ** Workers that may fail *)

Lemma open_streams_middle {A} (before : list (list A)) s after :
  open_streams (before ++ s :: after)
  = (open_streams before
     + match s with [] => 0 | _ => 1 end
     + open_streams after)%nat.
Proof.
  unfold open_streams. rewrite filter_app, length_app. cbn [filter].
  destruct s; cbn [length]; lia.
Qed.

Lemma rest_of_protocol_inv {T} (x : QueueMessage T) s :
  rest_of_protocol (x :: s) ->
  rest_of_protocol s
  /\ match x with
     | Value _ => s <> []
     | Error _ _ => s <> []
     | Done => s = []
     end.
Proof.
  intros [H|(values & [H|(e & tb & H)])]; [discriminate| |].
  - destruct values as [|v values]; cbn in H; injection H as -> ->.
    + split; [now left|reflexivity].
    + split; [right; exists values; now left|].
      now destruct values.
  - destruct values as [|v values]; cbn in H; injection H as -> ->.
    + split; [right; exists []; now left|discriminate].
    + split; [right; exists values; right; eauto|].
      now destruct values.
Qed.

(** Fed with an interleaving of what the workers have still to send, the
    consuming loop does not wait for ever: it returns when no error is
    under way, and raises one of the errors under way otherwise. *)
Lemma fan_in_interleaving {T} n (streams : list (list (QueueMessage T))) trace :
  interleaving streams trace ->
  Forall rest_of_protocol streams ->
  forall d,
    d + Z.of_nat (open_streams streams) = n ->
    match stop (fan_run (fan_in n trace d)) with
    | StopIteration => existsb is_error (concat streams) = false
    | Raised e =>
        exists msg tb, e = WorkerError msg /\ In (Error msg tb) (concat streams)
    | Blocked => False
    end.
Proof.
  induction 1 as [streams H|before x s after merged _ IH]; intros Hp d Hd.
  - assert (Hc : concat streams = []).
    { clear - H. induction H as [|s streams -> _ IH]; [reflexivity|exact IH]. }
    assert (Ho : open_streams streams = 0%nat).
    { clear - H. unfold open_streams.
      induction H as [|s streams -> _ IH]; [reflexivity|exact IH]. }
    rewrite Ho in Hd. cbn [fan_in].
    assert (Hlt : (d <? n) = false) by (apply Z.ltb_ge; lia).
    rewrite Hlt, Hc. reflexivity.
  - apply Forall_app in Hp. destruct Hp as [Hb Hp].
    apply Forall_cons_iff in Hp. destruct Hp as [Hx Ha].
    apply rest_of_protocol_inv in Hx. destruct Hx as [Hs Hshape].
    assert (Hp' : Forall rest_of_protocol (before ++ s :: after)).
    { apply Forall_app. split; [exact Hb|]. now constructor. }
    rewrite open_streams_middle in Hd.
    cbn [fan_in].
    assert (Hlt : (d <? n) = true) by (apply Z.ltb_lt; lia).
    rewrite Hlt. rewrite concat_middle, existsb_app. cbn [app existsb].
    rewrite existsb_app.
    destruct x as [v|e tb|].
    + cbn [fan_run yield stop is_error orb].
      specialize (IH Hp' d). rewrite open_streams_middle in IH.
      destruct s as [|m s]; [contradiction|]. specialize (IH Hd).
      rewrite concat_middle, existsb_app, existsb_app in IH.
      destruct (stop (fan_run (fan_in n merged d))) as [|err|];
        [exact IH| |exact IH].
      destruct IH as (msg & tb & -> & Hin). exists msg, tb.
      split; [reflexivity|].
      apply in_app_or in Hin. apply in_or_app.
      destruct Hin as [Hin|Hin]; [now left|right]. now right.
    + cbn [fan_run stop]. exists e, tb. split; [reflexivity|].
      apply in_or_app. right. now left.
    + cbn [fan_run stop is_error orb]. subst s.
      specialize (IH Hp' (d + 1)). rewrite open_streams_middle in IH.
      rewrite concat_middle, existsb_app in IH. cbn [app] in IH.
      destruct (stop (fan_run (fan_in n merged (d + 1)))) as [|err|].
      * apply IH. lia.
      * destruct IH as (msg & tb & -> & Hin); [lia|]. exists msg, tb.
        split; [reflexivity|].
        apply in_app_or in Hin. apply in_or_app.
        destruct Hin as [Hin|Hin]; [now left|right]. now right.
      * apply IH. lia.
Qed.

(** How the consuming loop ends on the messages of [bodies], however the
    queue interleaves them. *)
Lemma fan_in_outcome {T} fmt (bodies : list (Run T)) trace :
  Forall (fun body => stop body <> Blocked) bodies ->
  interleaving (map (worker_messages fmt) bodies) trace ->
  match stop (fan_run (fan_in (Z.of_nat (length bodies)) trace 0)) with
  | StopIteration => Forall (fun body => stop body = StopIteration) bodies
  | Raised e =>
      exists body exc,
        In body bodies /\ stop body = Raised exc /\ e = WorkerError (str exc)
  | Blocked => False
  end.
Proof.
  intros Hb Hi.
  assert (Hp : Forall rest_of_protocol (map (worker_messages fmt) bodies)).
  { apply Forall_forall. intros s Hs. apply in_map_iff in Hs.
    destruct Hs as (body & <- & Hin). right.
    apply worker_messages_protocol. rewrite Forall_forall in Hb.
    now apply Hb. }
  assert (Ho : open_streams (map (worker_messages fmt) bodies)
               = length bodies).
  { clear - Hb. unfold open_streams.
    induction Hb as [|body bodies Hbody _ IH]; [reflexivity|].
    cbn [map filter].
    destruct (worker_messages fmt body) as [|m l] eqn:Hm.
    - exfalso. unfold worker_messages in Hm. apply app_eq_nil in Hm.
      destruct Hm as [_ Hm].
      destruct (stop body); [discriminate|discriminate|now apply Hbody].
    - cbn [length]. now rewrite IH. }
  pose proof (fan_in_interleaving (Z.of_nat (length bodies)) _ _ Hi Hp 0) as H.
  rewrite Ho in H. specialize (H eq_refl).
  destruct (stop (fan_run (fan_in (Z.of_nat (length bodies)) trace 0)))
    as [|e|]; [| |exact H].
  - apply Forall_forall. intros body Hin.
    destruct (stop body) as [|exc|] eqn:Hs; [reflexivity| |].
    + exfalso. apply Bool.not_true_iff_false in H. apply H.
      apply existsb_exists. exists (Error (str exc) (fmt exc)). split; [|reflexivity].
      apply in_concat. exists (worker_messages fmt body).
      split; [now apply in_map|]. unfold worker_messages. rewrite Hs.
      apply in_or_app. right. now left.
    + rewrite Forall_forall in Hb. now apply Hb in Hin.
  - destruct H as (msg & tb & -> & Hin). apply in_concat in Hin.
    destruct Hin as (s & Hs & Hin). apply in_map_iff in Hs.
    destruct Hs as (body & <- & Hbody).
    apply worker_messages_error in Hin. destruct Hin as (exc & Hexc & -> & _).
    now exists body, exc.
Qed.

Section Outcomes.
Context {E : Collaborators}.
Implicit Types (self : MultiProcessDataLoader).


Lemma batch_worker_not_blocked self worker_id :
  stop (batch_worker_body self worker_id) <> Blocked.
Proof.
  unfold batch_worker_body.
  pose proof (source_run_not_blocked (read (worker_info self worker_id)))
    as Hs.
  destruct (stop_instances_to_batches self
              (source_run (read (worker_info self worker_id))))
    as [->|[->|[->|[m ->]]]]; try discriminate. exact Hs.
Qed.

(** X15. When the queue delivers what the batch workers send, in any
    interleaving, a pass of [_iter_batches] over them does not wait for
    ever; it returns only if every worker built its batches to the end;
    and otherwise it raises [WorkerError] with the message of the
    exception of one of the workers that failed. This is so once the
    workers are started; when their set-up raises, the pass raises that
    exception and has yielded nothing. *)
Theorem failing_batch_worker_is_reported self :
  0 < num_workers self ->
  _instances self = None ->
  interleaving
    (map (fun worker_id => _batch_worker self (Z.of_nat worker_id))
         (worker_ids self))
    (batch_arrivals
       (map (fun worker_id => _batch_worker self (Z.of_nat worker_id))
            (worker_ids self))) ->
  match set_up self (_max_batch_queue_size self) with
  | Some e => fst (_iter_batches self) = mkRun [] (Raised e)
  | None =>
      match stop (fst (_iter_batches self)) with
      | StopIteration =>
          forall worker_id,
            In worker_id (worker_ids self) ->
            stop (batch_worker_body self (Z.of_nat worker_id)) = StopIteration
      | Raised e =>
          exists worker_id exc,
            In worker_id (worker_ids self)
            /\ stop (batch_worker_body self (Z.of_nat worker_id)) = Raised exc
            /\ e = WorkerError (str exc)
      | Blocked => False
      end
  end.
Proof.
  intros Hw Hc Hi.
  assert (Hle : (num_workers self <=? 0) = false) by (apply Z.leb_gt; lia).
  destruct (set_up self (_max_batch_queue_size self)) as [e|] eqn:Hsetup.
  { unfold _iter_batches. rewrite Hc. cbn [is_some is_none negb orb].
    now rewrite Hle, Hsetup. }
  unfold _batch_worker in Hi. rewrite <- map_map in Hi.
  apply fan_in_outcome in Hi.
  2:{ apply Forall_forall. intros body Hin. apply in_map_iff in Hin.
      destruct Hin as (worker_id & <- & _). apply batch_worker_not_blocked. }
  rewrite length_map, map_map in Hi.
  assert (Hn : Z.of_nat (length (worker_ids self)) = num_workers self)
    by (unfold worker_ids; rewrite length_seq; lia).
  rewrite Hn in Hi.
  assert (Hpass : fst (_iter_batches self) = fan_run (batch_fan_in self)).
  { unfold _iter_batches. rewrite Hc. cbn [is_some is_none negb orb].
    now rewrite Hle, Hsetup. }
  rewrite Hpass. unfold batch_fan_in, _batch_worker.
  destruct (stop (fan_run (fan_in (num_workers self) _ 0))) as [|e|];
    [| |exact Hi].
  - intros worker_id Hin. rewrite Forall_forall in Hi. apply Hi.
    apply in_map_iff. now exists worker_id.
  - destruct Hi as (body & exc & Hin & Hexc & ->).
    apply in_map_iff in Hin. destruct Hin as (worker_id & <- & Hin).
    now exists worker_id, exc.
Qed.

End Outcomes.

(** ** Epochs, one after the other *)

Section Continuity.
Context {E : Collaborators}.
Variable Inv : MultiProcessDataLoader -> Prop.
Variable pass : list TensorDict.
Hypothesis pass_not_empty : pass <> [].
Hypothesis Inv_generator :
  forall s g, Inv s -> Inv (set_batch_generator s g).
Hypothesis Inv_pass :
  forall s, Inv s ->
    fst (_iter_batches s) = mkRun pass StopIteration
    /\ Inv (snd (_iter_batches s)).

Lemma next_batch_of_pass s :
  Inv s ->
  exists batch rest,
    pass = batch :: rest
    /\ next_batch s Fresh
       = (Item batch, Resumed (mkRun rest StopIteration),
          snd (_iter_batches s))
    /\ Inv (snd (_iter_batches s)).
Proof.
  intros Hs. destruct (Inv_pass s Hs) as [Hpass HInv].
  unfold next_batch. destruct (_iter_batches s) as [r s1].
  cbn [fst snd] in *. subst r. cbn [yielded stop].
  destruct pass as [|batch rest]; [contradiction|].
  now exists batch, rest.
Qed.

Lemma epoch_continues rounds : forall s g,
  Inv s -> pending_normal g ->
  exists passes g',
    _batch_generator (snd (epoch rounds s g)) = Some g'
    /\ pending_normal g'
    /\ Inv (snd (epoch rounds s g))
    /\ pending_of g ++ concat (repeat pass passes)
       = yielded (fst (epoch rounds s g)) ++ pending_of g'.
Proof.
  induction rounds as [|rounds IH]; intros s g Hs Hg; cbn [epoch].
  - exists 0%nat, g. unfold leave. cbn [fst snd yielded repeat concat app].
    split; [reflexivity|]. split; [exact Hg|].
    split; [now apply Inv_generator|]. apply app_nil_r.
  - assert (Hfresh :
      exists passes g',
        _batch_generator
          (snd match next_batch s Fresh with
               | (Item batch, g2, self2) =>
                   and_then batch (epoch rounds self2 g2)
               | (Stopped StopIteration, g2, self2) =>
                   leave (Raised (RuntimeError "generator raised StopIteration"))
                         self2 g2
               | (Stopped st, g2, self2) => leave st self2 g2
               end) = Some g'
        /\ pending_normal g'
        /\ Inv (snd match next_batch s Fresh with
                    | (Item batch, g2, self2) =>
                        and_then batch (epoch rounds self2 g2)
                    | (Stopped StopIteration, g2, self2) =>
                        leave (Raised (RuntimeError "generator raised StopIteration"))
                              self2 g2
                    | (Stopped st, g2, self2) => leave st self2 g2
                    end)
        /\ concat (repeat pass passes)
           = yielded (fst match next_batch s Fresh with
                          | (Item batch, g2, self2) =>
                              and_then batch (epoch rounds self2 g2)
                          | (Stopped StopIteration, g2, self2) =>
                              leave (Raised (RuntimeError "generator raised StopIteration"))
                                    self2 g2
                          | (Stopped st, g2, self2) => leave st self2 g2
                          end)
             ++ pending_of g').
    { destruct (next_batch_of_pass s Hs) as (batch & rest & Hpass & -> & Hs1).
      destruct (IH (snd (_iter_batches s))
                   (Resumed (mkRun rest StopIteration)) Hs1 eq_refl)
        as (passes & g' & Hgen & Hg' & HInv & Heq).
      exists (S passes), g'. unfold and_then. cbn [fst snd yield yielded].
      split; [exact Hgen|]. split; [exact Hg'|]. split; [exact HInv|].
      cbn [repeat concat]. rewrite Hpass at 1. cbn [app pending_of yielded] in *.
      now rewrite Heq. }
    destruct g as [|pending].
    + destruct (next_batch_of_pass s Hs) as (batch & rest & _ & Hnext & _).
      rewrite Hnext in Hfresh |- *. exact Hfresh.
    + destruct pending as [[|batch rest] st]; cbn in Hg; subst st.
      * rewrite next_batch_exhausted. exact Hfresh.
      * rewrite next_batch_pending.
        destruct (IH s (Resumed (mkRun rest StopIteration)) Hs eq_refl)
          as (passes & g' & Hgen & Hg' & HInv & Heq).
        exists passes, g'. unfold and_then. cbn [fst snd yield yielded].
        split; [exact Hgen|]. split; [exact Hg'|]. split; [exact HInv|].
        cbn [pending_of yielded app] in *. now rewrite Heq.
Qed.

(** X17. With [batches_per_epoch] set and passes that all yield the batches
    [pass], the calls of [__iter__] share one endless stream of passes:
    the batches of a call, followed by the batches the kept generator has
    still to yield, are the batches that were kept before the call
    followed by whole passes. No batch is skipped and none is yielded
    twice between one call and the next. *)
Theorem epochs_continue_where_they_stopped self n :
  Inv self ->
  kept_normal self ->
  _vocab self <> None ->
  batches_per_epoch self = Some n ->
  exists passes,
    pending_batches self ++ concat (repeat pass passes)
    = yielded (fst (__iter__ self)) ++ pending_batches (snd (__iter__ self))
    /\ Inv (snd (__iter__ self))
    /\ kept_normal (snd (__iter__ self)).
Proof.
  intros Hs Hkept Hv Hn. unfold __iter__.
  destruct (_vocab self) as [vocab|]; [|contradiction]. rewrite Hn.
  set (g := match _batch_generator self with
            | Some g => g
            | None => Fresh
            end).
  assert (Hg : pending_normal g).
  { unfold kept_normal in Hkept. subst g.
    now destruct (_batch_generator self). }
  assert (Hpending : pending_batches self = pending_of g).
  { unfold pending_batches. subst g. now destruct (_batch_generator self). }
  destruct (epoch_continues (Z.to_nat n) self g Hs Hg)
    as (passes & g' & Hgen & Hg' & HInv & Heq).
  exists passes. rewrite Hpending. unfold pending_batches, kept_normal.
  rewrite Hgen. split; [exact Heq|]. split; [exact HInv|exact Hg'].
Qed.
End Continuity.

(** ** The properties at work *)

Lemma toy_indexing_idempotent src flight alive :
  @indexing_idempotent (Toy.env src flight alive).
Proof. intros vocab i. reflexivity. Qed.

Lemma reachable_indexed_loader (E : Collaborators) c vocab self :
  __init__ c = Ok self -> indexed_loader E c vocab = index_with self vocab
  /\ reachable (indexed_loader E c vocab).
Proof.
  intros H. unfold indexed_loader. rewrite H. split; [reflexivity|].
  apply after_index_with. now apply after_init with c.
Qed.

(** A pass only sees the loader without its generator. *)
Lemma iter_batches_without_generator {E : Collaborators}
    (s : MultiProcessDataLoader) :
  _iter_batches s
  = (fst (_iter_batches (set_batch_generator s None)),
     set_batch_generator (snd (_iter_batches (set_batch_generator s None)))
                         (_batch_generator s)).
Proof.
  rewrite <- iter_batches_generator. now destruct s.
Qed.

Lemma eleven_records_witness :
  @read (Toy.plain 11) None = mkSource (map Toy.raw (seq 0 11)) None
  /\ 4 <= 6
  /\ exists self,
       @__init__ (Toy.plain 11)
         (mkConfig (Some 4) true false None None 0 (Some 6) "fork" false None)
       = Ok self
       /\ fst (__iter__ (index_with self tt))
          = mkRun [map Toy.ready [0; 1; 2; 3]%nat;
                   map Toy.ready [4; 5; 6; 7]%nat]
                  StopIteration.
Proof.
  assert (Hmem : 4 <= 6) by lia.
  split; [reflexivity|]. split; [exact Hmem|].
  destruct (eleven_records_in_batches_of_four (E := Toy.plain 11) tt
              (Toy.raw 0) (Toy.raw 1) (Toy.raw 2) (Toy.raw 3) (Toy.raw 4)
              (Toy.raw 5) (Toy.raw 6) (Toy.raw 7) (Toy.raw 8) (Toy.raw 9)
              (Toy.raw 10) (Some 6) "fork" false None true eq_refl Hmem)
    as (self & Hinit & Hiter).
  exists self. split; [exact Hinit|]. rewrite Hiter.
  vm_compute in Hinit. injection Hinit as <-. reflexivity.
Defined.

Lemma batch_size_witness :
  batch_sampler eleven_dropping = None
  /\ batch_size eleven_dropping = Some 4
  /\ built_from eleven_dropping
       (fun batch =>
          0 < Z.of_nat (length batch) <= 4
          /\ (drop_last eleven_dropping = true ->
              Z.of_nat (length batch) = 4))
       (yielded (_instances_to_batches eleven_dropping
                   (mkRun (map Toy.raw (seq 0 11)) StopIteration))).
Proof.
  split; [reflexivity|]. split; [reflexivity|].
  apply (batches_respect_batch_size eleven_dropping
           (mkRun (map Toy.raw (seq 0 11)) StopIteration) 4
           eq_refl eq_refl).
Defined.




Lemma vocabulary_witness :
  reachable eleven_dropping
  /\ _vocab eleven_dropping <> None
  /\ stop (fst (__iter__ eleven_dropping))
     <> Raised (ValueError not_indexed_msg).
Proof.
  assert (Hr : reachable eleven_dropping).
  { eapply reachable_indexed_loader. reflexivity. }
  split; [exact Hr|]. split; [discriminate|].
  apply (iteration_requires_vocabulary eleven_dropping Hr). discriminate.
Defined.

Lemma length_witness :
  reachable eleven_dropping /\ fst (__len__ eleven_dropping) = Ok 2.
Proof.
  assert (Hr : reachable eleven_dropping).
  { eapply reachable_indexed_loader. reflexivity. }
  split; [exact Hr|].
  pose proof (length_of_loader eleven_dropping Hr) as H.
  change (batches_per_epoch eleven_dropping) with (@None Z) in H.
  change (max_instances_in_memory eleven_dropping) with (@None Z) in H.
  cbv iota in H.
  destruct H as (instances & _ & Hcached & _ & H).
  change (batch_sampler eleven_dropping) with (@None (@BatchSampler (Toy.plain 11))) in H.
  cbv iota in H.
  destruct H as (b & Hb & Hdrop & _).
  injection Hb as <-.
  specialize (Hcached eq_refl). injection Hcached as <-.
  apply Hdrop. now left.
Defined.

Lemma repetition_witness :
  num_workers eleven_dropping <= 0
  /\ shuffle eleven_dropping = false
  /\ batches_per_epoch eleven_dropping = None
  /\ @indexing_idempotent (Toy.plain 11)
  /\ stop (fst (__iter__ eleven_dropping)) = StopIteration
  /\ fst (__iter__ (snd (__iter__ eleven_dropping)))
     = fst (__iter__ eleven_dropping).
Proof.
  assert (Hw : num_workers eleven_dropping <= 0) by (cbn; lia).
  pose proof (toy_indexing_idempotent (Toy.numbered 11) 0 (fun _ => true))
    as Hidem.
  split; [exact Hw|]. split; [reflexivity|]. split; [reflexivity|].
  split; [exact Hidem|]. split; [reflexivity|].
  exact (repeated_iteration_is_identical eleven_dropping Hw eq_refl eq_refl
           Hidem eq_refl).
Defined.

Lemma repetition_counterexample :
  num_workers (eleven_cycling 1) = 0
  /\ shuffle (eleven_cycling 1) = false
  /\ fst (__iter__ (eleven_cycling 1))
     = mkRun [map Toy.ready [0; 1; 2; 3]%nat] StopIteration
  /\ fst (__iter__ (snd (__iter__ (eleven_cycling 1))))
     = mkRun [map Toy.ready [4; 5; 6; 7]%nat] StopIteration.
Proof. repeat split. Qed.

Lemma fixed_length_counterexample :
  batches_per_epoch three_dropping = Some 5
  /\ _vocab three_dropping = Some tt
  /\ fst (_iter_batches three_dropping) = mkRun [] StopIteration
  /\ fst (__iter__ three_dropping)
     = mkRun [] (Raised (RuntimeError "generator raised StopIteration")).
Proof. repeat split. Qed.

Lemma cycling_pass s :
  cycling s ->
  yielded (fst (_iter_batches s)) <> []
  /\ stop (fst (_iter_batches s)) = StopIteration
  /\ cycling (snd (_iter_batches s)).
Proof.
  unfold cycling. intros Hs. rewrite iter_batches_without_generator, Hs.
  cbn [fst snd]. split; [discriminate|]. split; reflexivity.
Qed.

Lemma fixed_length_witness :
  cycling (eleven_cycling 5)
  /\ kept_normal (eleven_cycling 5)
  /\ _vocab (eleven_cycling 5) <> None
  /\ batches_per_epoch (eleven_cycling 5) = Some 5
  /\ length (yielded (fst (__iter__ (eleven_cycling 5)))) = 5%nat
  /\ length (yielded (fst (__iter__ (snd (__iter__ (eleven_cycling 5))))))
     = 5%nat.
Proof.
  assert (Hgen : forall s g, cycling s -> cycling (set_batch_generator s g))
    by (intros s g Hs; exact Hs).
  assert (H0 : cycling (eleven_cycling 5)) by reflexivity.
  assert (Hv : _vocab (eleven_cycling 5) <> None) by discriminate.
  destruct (epochs_have_fixed_length cycling Hgen cycling_pass
              (eleven_cycling 5) 5 H0 I Hv eq_refl)
    as (Hlen & _ & (H1 & Hk1 & Hv1 & Hn1) & _).
  destruct (epochs_have_fixed_length cycling Hgen cycling_pass
              (snd (__iter__ (eleven_cycling 5))) 5 H1 Hk1 Hv1 Hn1)
    as (Hlen' & _).
  repeat split; assumption || discriminate.
Defined.

Lemma partition_witness :
  _vocab eleven_keeping = Some tt
  /\ batch_sampler eleven_keeping = None
  /\ batch_size eleven_keeping = Some 4
  /\ 1 <= 4
  /\ shuffle eleven_keeping = false
  /\ drop_last eleven_keeping = false
  /\ exists groups,
       _instances_to_batches eleven_keeping
         (mkRun (map Toy.raw (seq 0 11)) StopIteration)
       = mkRun (map (tensorize eleven_keeping) groups) StopIteration
       /\ concat groups = map Toy.ready (seq 0 11).
Proof.
  assert (Hb : 1 <= 4) by lia.
  do 6 (split; [first [exact Hb|reflexivity]|]).
  exact (batches_partition_the_records eleven_keeping tt 4
           (mkRun (map Toy.raw (seq 0 11)) StopIteration)
           eq_refl eq_refl eq_refl Hb eq_refl eq_refl eq_refl).
Defined.

Lemma drop_last_witness :
  _vocab eleven_dropping = Some tt
  /\ batch_sampler eleven_dropping = None
  /\ batch_size eleven_dropping = Some 4
  /\ 1 <= 4
  /\ shuffle eleven_dropping = false
  /\ drop_last eleven_dropping = true
  /\ max_instances_in_memory eleven_dropping = None
  /\ exists groups dropped,
       _instances_to_batches eleven_dropping
         (mkRun (map Toy.raw (seq 0 11)) StopIteration)
       = mkRun (map (tensorize eleven_dropping) groups) StopIteration
       /\ map Toy.ready (seq 0 11) = concat groups ++ dropped
       /\ Z.of_nat (length dropped) = 3
       /\ Z.of_nat (length groups) = 2.
Proof.
  assert (Hb : 1 <= 4) by lia.
  do 7 (split; [first [exact Hb|reflexivity]|]).
  exact (drop_last_drops_the_remainder eleven_dropping tt 4
           (mkRun (map Toy.raw (seq 0 11)) StopIteration)
           eq_refl eq_refl eq_refl Hb eq_refl eq_refl eq_refl eq_refl).
Defined.

Lemma windows_witness :
  _vocab eleven_windowed = Some tt
  /\ batch_sampler eleven_windowed = None
  /\ batch_size eleven_windowed = Some 4
  /\ 1 <= 4
  /\ shuffle eleven_windowed = false
  /\ max_instances_in_memory eleven_windowed = Some 6
  /\ (4 | window_size eleven_windowed 6)
  /\ _instances_to_batches eleven_windowed
       (mkRun (map Toy.raw (seq 0 11)) StopIteration)
     = mkRun [map Toy.ready [0; 1; 2; 3]%nat; map Toy.ready [4; 5; 6; 7]%nat]
             StopIteration.
Proof.
  assert (Hb : 1 <= 4) by lia.
  assert (Hw : (4 | window_size eleven_windowed 6)) by (now exists 2).
  do 7 (split; [first [exact Hb|exact Hw|reflexivity]|]).
  exact (windows_do_not_change_the_batches eleven_windowed tt 4 6
           (mkRun (map Toy.raw (seq 0 11)) StopIteration)
           eq_refl eq_refl eq_refl Hb eq_refl eq_refl Hw eq_refl).
Defined.

Lemma sampler_witness :
  let sampler :=
    @mkSampler (Toy.plain 11) (fun _ => [[0; -1]; [2]]) (fun _ => 2) in
  let groups := [map Toy.ready [0; 10]%nat; map Toy.ready [2]%nat] in
  _vocab picking = Some tt
  /\ batch_sampler picking = Some sampler
  /\ max_instances_in_memory picking = None
  /\ shuffle picking = false
  /\ Forall2 (fun indices batch =>
                getitems (map Toy.ready (seq 0 11)) indices = Some batch)
             [[0; -1]; [2]] groups
  /\ _instances_to_batches picking
       (mkRun (map Toy.raw (seq 0 11)) StopIteration)
     = mkRun groups StopIteration.
Proof.
  intros sampler groups.
  assert (Hg : Forall2 (fun indices batch =>
                          getitems (map Toy.ready (seq 0 11)) indices
                          = Some batch)
                       [[0; -1]; [2]] groups)
    by (repeat constructor).
  do 5 (split; [first [exact Hg|reflexivity]|]).
  exact (proj1 (sampler_chooses_the_batches picking sampler tt
                  (mkRun (map Toy.raw (seq 0 11)) StopIteration)
                  [[0; -1]; [2]] groups
                  eq_refl eq_refl eq_refl eq_refl eq_refl Hg)
               eq_refl).
Defined.

Lemma length_agreement_witness :
  reachable eleven_dropping
  /\ _vocab eleven_dropping <> None
  /\ batches_per_epoch eleven_dropping = None
  /\ max_instances_in_memory eleven_dropping = None
  /\ batch_sampler eleven_dropping = None
  /\ stop (fst (__iter__ eleven_dropping)) = StopIteration
  /\ fst (__len__ eleven_dropping)
     = Ok (Z.of_nat (length (yielded (fst (__iter__ eleven_dropping))))).
Proof.
  assert (Hr : reachable eleven_dropping).
  { eapply reachable_indexed_loader. reflexivity. }
  assert (Hv : _vocab eleven_dropping <> None) by discriminate.
  do 5 (split; [first [exact Hr|exact Hv|reflexivity]|]).
  exact (length_agrees_with_iteration eleven_dropping Hr Hv eq_refl eq_refl
           eq_refl (fun l => eq_refl)).
Defined.

Lemma length_stability_witness :
  reachable eleven_dropping
  /\ batch_sampler eleven_dropping = None
  /\ cached eleven_dropping = true
  /\ fst (__len__ (index_with eleven_dropping tt))
     = fst (__len__ eleven_dropping)
  /\ fst (__len__ (snd (__iter__ eleven_dropping)))
     = fst (__len__ eleven_dropping)
  /\ snd (__len__ eleven_dropping) = eleven_dropping.
Proof.
  assert (Hr : reachable eleven_dropping).
  { eapply reachable_indexed_loader. reflexivity. }
  do 3 (split; [first [exact Hr|reflexivity]|]).
  exact (length_is_stable eleven_dropping tt Hr eq_refl eq_refl).
Defined.

Lemma every_record_witness :
  let c := Toy.config (Toy.plain 11) (Some 4) false None 0 None in
  exists self,
    __init__ c = Ok self
    /\ num_workers c = 0
    /\ batch_size c = Some 4
    /\ shuffle c = false
    /\ drop_last c = false
    /\ batches_per_epoch c = None
    /\ failure (@read (Toy.plain 11) None) = None
    /\ exists groups,
         fst (__iter__ (index_with self tt))
         = mkRun (map (tensorize (index_with self tt)) groups) StopIteration
         /\ concat groups = map Toy.ready (seq 0 11).
Proof.
  intros c. eexists.
  assert (Hinit : __init__ c = Ok _) by reflexivity.
  split; [exact Hinit|].
  do 6 (split; [reflexivity|]).
  exact (every_record_is_batched c tt 4 _ Hinit eq_refl eq_refl eq_refl
           eq_refl eq_refl eq_refl).
Defined.

Lemma queue_bounds_witness :
  let c := Toy.config (Toy.plain 11) (Some 4) false None 2 (Some 6) in
  validate c = None
  /\ max_instances_in_memory c = Some 6
  /\ exists self,
       __init__ c = Ok self
       /\ _instances self = None
       /\ _max_instance_queue_size self = Some 24
       /\ exists bound,
            _max_batch_queue_size self = Some bound /\ 4 <= bound <= 24.
Proof.
  intros c. split; [reflexivity|]. split; [reflexivity|].
  exact (queues_are_bounded c 6 eq_refl eq_refl).
Defined.

Lemma cache_witness :
  reachable eleven_dropping /\ is_some (_instances eleven_dropping) = true.
Proof.
  assert (Hr : reachable eleven_dropping).
  { eapply reachable_indexed_loader. reflexivity. }
  split; [exact Hr|].
  exact (loaders_cache_exactly_when_unbounded eleven_dropping Hr).
Defined.

Lemma shuffling_witness :
  _vocab eleven_shuffled = Some tt
  /\ batch_sampler eleven_shuffled = None
  /\ batch_size eleven_shuffled = Some 4
  /\ 1 <= 4
  /\ drop_last eleven_shuffled = false
  /\ (forall l, Permutation (@random_shuffle reversing l) l)
  /\ (forall r w,
         stop r = StopIteration ->
         Permutation (@shuffle_iterable reversing r w) (yielded r))
  /\ _instances_to_batches eleven_shuffled
       (mkRun (map Toy.raw (seq 0 11)) StopIteration)
     = mkRun [map Toy.ready [10; 9; 8; 7]%nat; map Toy.ready [6; 5; 4; 3]%nat;
              map Toy.ready [2; 1; 0]%nat]
             StopIteration
  /\ exists groups,
       _instances_to_batches eleven_shuffled
         (mkRun (map Toy.raw (seq 0 11)) StopIteration)
       = mkRun (map (tensorize eleven_shuffled) groups) StopIteration
       /\ Permutation (concat groups) (map Toy.ready (seq 0 11)).
Proof.
  assert (Hb : 1 <= 4) by lia.
  assert (Hrandom : forall l, Permutation (@random_shuffle reversing l) l)
    by (intros l; apply Permutation_sym, Permutation_rev).
  assert (Hiterable : forall r w,
            stop r = StopIteration ->
            Permutation (@shuffle_iterable reversing r w) (yielded r)).
  { intros r w Hr.
    change (Permutation
              match stop r with
              | StopIteration => rev (yielded r)
              | _ => []
              end
              (yielded r)).
    rewrite Hr. apply Permutation_sym, Permutation_rev. }
  do 5 (split; [first [exact Hb|reflexivity]|]).
  split; [exact Hrandom|]. split; [exact Hiterable|]. split; [reflexivity|].
  exact (shuffling_keeps_every_record eleven_shuffled tt 4
           (mkRun (map Toy.raw (seq 0 11)) StopIteration)
           eq_refl eq_refl eq_refl Hb eq_refl eq_refl Hrandom Hiterable).
Defined.

Lemma shards_witness :
  let arrivals :=
    @instance_arrivals shards
      (map (fun worker_id => _instance_worker two_shards (Z.of_nat worker_id))
           (worker_ids two_shards)) in
  0 < num_workers two_shards
  /\ cached two_shards = false
  /\ (forall worker_id,
         In worker_id (worker_ids two_shards) ->
         stop (instance_worker_body two_shards (Z.of_nat worker_id))
         = StopIteration)
  /\ interleaving
       (map (fun worker_id => _instance_worker two_shards (Z.of_nat worker_id))
            (worker_ids two_shards))
       arrivals
  /\ exists received,
       fst (iter_instances two_shards None)
       = mkRun (map (prepare two_shards) received) StopIteration
       /\ interleaving
            [map Toy.raw [0; 1; 2; 3]%nat; map Toy.raw [4; 5; 6; 7]%nat]
            received
       /\ snd (iter_instances two_shards None) = two_shards.
Proof.
  intros arrivals.
  assert (Hw : 0 < num_workers two_shards) by (cbn; lia).
  assert (Hret : forall worker_id,
            In worker_id (worker_ids two_shards) ->
            stop (instance_worker_body two_shards (Z.of_nat worker_id))
            = StopIteration)
    by (intros worker_id [<-|[<-|[]]]; reflexivity).
  assert (Hi : interleaving
                 (map (fun worker_id =>
                         _instance_worker two_shards (Z.of_nat worker_id))
                      (worker_ids two_shards))
                 arrivals)
    by apply interleaving_concat.
  split; [exact Hw|]. split; [reflexivity|]. split; [exact Hret|].
  split; [exact Hi|].
  exact (gathered_records_are_the_shards two_shards Hw eq_refl Hret Hi).
Defined.

Lemma drained_witness :
  let arrivals :=
    @batch_arrivals shards
      (map (fun worker_id => _batch_worker two_shards (Z.of_nat worker_id))
           (worker_ids two_shards)) in
  0 < num_workers two_shards
  /\ _instances two_shards = None
  /\ (forall worker_id,
         In worker_id (worker_ids two_shards) ->
         stop (batch_worker_body two_shards (Z.of_nat worker_id))
         = StopIteration)
  /\ interleaving
       (map (fun worker_id => _batch_worker two_shards (Z.of_nat worker_id))
            (worker_ids two_shards))
       arrivals
  /\ exists batches,
       _iter_batches two_shards = (mkRun batches StopIteration, two_shards)
       /\ interleaving
            [[map Toy.ready [0; 1]%nat; map Toy.ready [2; 3]%nat];
             [map Toy.ready [4; 5]%nat; map Toy.ready [6; 7]%nat]]
            batches
       /\ stderr (batch_fan_in two_shards) = []
       /\ unacknowledged (batch_fan_in two_shards) = 2%nat
       /\ exists workers q,
            batch_teardown two_shards = Some (workers, q)
            /\ map pid workers = [0; 1]%nat
            /\ Forall (fun worker =>
                         is_alive worker = Nat.eqb (pid worker) 1
                         /\ terminated worker = is_alive worker)
                      workers
            /\ acknowledgments (@left_on_queue shards 2) q = 2%nat
            /\ unfinished_tasks q = 0%nat
            /\ closed q = true.
Proof.
  intros arrivals.
  assert (Hw : 0 < num_workers two_shards) by (cbn; lia).
  assert (Hret : forall worker_id,
            In worker_id (worker_ids two_shards) ->
            stop (batch_worker_body two_shards (Z.of_nat worker_id))
            = StopIteration)
    by (intros worker_id [<-|[<-|[]]]; reflexivity).
  assert (Hi : interleaving
                 (map (fun worker_id =>
                         _batch_worker two_shards (Z.of_nat worker_id))
                      (worker_ids two_shards))
                 arrivals)
    by apply interleaving_concat.
  split; [exact Hw|]. split; [reflexivity|]. split; [exact Hret|].
  split; [exact Hi|].
  exact (batch_workers_are_drained two_shards Hw eq_refl Hret Hi).
Defined.

Lemma batch_failure_witness :
  let arrivals :=
    @batch_arrivals fails_on_third
      (map (fun worker_id => _batch_worker two_workers (Z.of_nat worker_id))
           (worker_ids two_workers)) in
  0 < num_workers two_workers
  /\ _instances two_workers = None
  /\ interleaving
       (map (fun worker_id => _batch_worker two_workers (Z.of_nat worker_id))
            (worker_ids two_workers))
       arrivals
  /\ stop (fst (_iter_batches two_workers)) = Raised (WorkerError "boom")
  /\ exists worker_id exc,
       In worker_id (worker_ids two_workers)
       /\ stop (batch_worker_body two_workers (Z.of_nat worker_id))
          = Raised exc
       /\ WorkerError "boom" = WorkerError (str exc).
Proof.
  intros arrivals.
  assert (Hw : 0 < num_workers two_workers) by (cbn; lia).
  assert (Hi : interleaving
                 (map (fun worker_id =>
                         _batch_worker two_workers (Z.of_nat worker_id))
                      (worker_ids two_workers))
                 arrivals)
    by apply interleaving_concat.
  split; [exact Hw|]. split; [reflexivity|]. split; [exact Hi|].
  split; [reflexivity|].
  exact (failing_batch_worker_is_reported two_workers Hw eq_refl Hi).
Defined.


Lemma cycling_batches s :
  cycling s ->
  fst (_iter_batches s) = mkRun three_batches StopIteration
  /\ cycling (snd (_iter_batches s)).
Proof.
  unfold cycling. intros Hs. rewrite iter_batches_without_generator, Hs.
  cbn [fst snd]. split; reflexivity.
Qed.

Lemma continuity_witness :
  cycling (eleven_cycling 5)
  /\ kept_normal (eleven_cycling 5)
  /\ _vocab (eleven_cycling 5) <> None
  /\ batches_per_epoch (eleven_cycling 5) = Some 5
  /\ exists passes,
       pending_batches (eleven_cycling 5)
         ++ concat (repeat three_batches passes)
       = yielded (fst (__iter__ (eleven_cycling 5)))
         ++ pending_batches (snd (__iter__ (eleven_cycling 5)))
       /\ cycling (snd (__iter__ (eleven_cycling 5)))
       /\ kept_normal (snd (__iter__ (eleven_cycling 5))).
Proof.
  assert (Hpass : three_batches <> []) by discriminate.
  assert (Hgen : forall s g, cycling s -> cycling (set_batch_generator s g))
    by (intros s g Hs; exact Hs).
  assert (H0 : cycling (eleven_cycling 5)) by reflexivity.
  assert (Hv : _vocab (eleven_cycling 5) <> None) by discriminate.
  split; [exact H0|]. split; [exact I|]. split; [exact Hv|].
  split; [reflexivity|].
  exact (epochs_continue_where_they_stopped cycling three_batches Hpass Hgen
           cycling_batches (eleven_cycling 5) 5 H0 I Hv eq_refl).
Defined.

(** ** Sample runs *)

Example memory_below_batch_size_is_refused :
  __init__ (Toy.config (Toy.plain 11) (Some 8) false None 0 (Some 5))
  = Raise (ValueError "max_instances_in_memory must be at least batch_size").
Proof. reflexivity. Qed.

Example sampler_excludes_batch_size :
  let sampler := @mkSampler (Toy.plain 11) (fun _ => [[0; 1]; [2]]) (fun _ => 2) in
  __init__ (mkConfig (Some 4) false false (Some sampler) None 0 None
                     "fork" false None)
  = Raise (ValueError
             "batch_sampler option is mutually exclusive with batch_size").
Proof. reflexivity. Qed.

Example sampler_picks_the_records :
  let sampler :=
    @mkSampler (Toy.plain 11) (fun _ => [[0; -1]; [2]]) (fun _ => 2) in
  let self :=
    indexed_loader (Toy.plain 11)
      (mkConfig None false false (Some sampler) None 0 None "fork" false None)
      tt in
  fst (__iter__ self)
  = mkRun [map Toy.ready [0; 10]%nat; map Toy.ready [2]%nat] StopIteration
  /\ fst (__len__ self) = Ok 2.
Proof. split; reflexivity. Qed.

(** Two batches a pass, five batches a call: the second call goes on where
    the first one stopped. *)
Example five_batches_from_passes_of_two :
  let self :=
    indexed_loader (Toy.plain 8)
      (Toy.config (Toy.plain 8) (Some 4) false (Some 5) 0 None) tt in
  let low := map Toy.ready [0; 1; 2; 3]%nat in
  let high := map Toy.ready [4; 5; 6; 7]%nat in
  fst (__iter__ self) = mkRun [low; high; low; high; low] StopIteration
  /\ fst (__iter__ (snd (__iter__ self)))
     = mkRun [high; low; high; low; high] StopIteration
  /\ fst (__len__ self) = Ok 5.
Proof. repeat split. Qed.

Example lengths_of_eleven_records :
  fst (__len__ eleven_dropping) = Ok 2
  /\ fst (__len__ (indexed_loader (Toy.plain 11)
                     (Toy.config (Toy.plain 11) (Some 4) false None 0 None)
                     tt))
     = Ok 3
  /\ fst (__len__ (indexed_loader (Toy.plain 11)
                     (Toy.config (Toy.plain 11) (Some 4) false None 0
                                 (Some 8))
                     tt))
     = Raise TypeError.
Proof. repeat split. Qed.

Example unindexed_loader_does_not_iterate :
  exists self,
    __init__ (Toy.config (Toy.plain 11) (Some 4) false None 0 None) = Ok self
    /\ fst (__iter__ self) = mkRun [] (Raised (ValueError not_indexed_msg)).
Proof. eexists. split; reflexivity. Qed.

Example failing_reader_on_the_queue :
  _batch_worker two_workers 0
  = [Value (map Toy.ready [0; 1]%nat);
     Error "boom" "Traceback (most recent call last): ...";
     Done]
  /\ _instance_worker two_workers 1
     = [Value (Toy.raw 0); Value (Toy.raw 1);
        Error "boom" "Traceback (most recent call last): ...";
        Done].
Proof. split; reflexivity. Qed.

(** A start method without a context passes the checks of [__init__]. It
    is refused when workers are to be started: by [__init__] itself when
    the records are read right away, by the first pass otherwise; without
    workers it is never looked at. *)
Example unknown_start_method :
  let c workers memory :=
    @mkConfig (Toy.plain 11) (Some 4) false false None None workers memory
              "nope" false None in
  let refused := ValueError "cannot find context for 'nope'" in
  invalid (c 2 None) = false
  /\ __init__ (c 2 None) = Raise refused
  /\ __init__ (c 2 (Some 8)) = Ok (initial (c 2 (Some 8)))
  /\ fst (__iter__ (index_with (initial (c 2 (Some 8))) tt))
     = mkRun [] (Raised refused)
  /\ exists self, __init__ (c 0 None) = Ok self.
Proof. repeat split. eexists. reflexivity. Qed.

(** The teardown after a pass over two shards: the first worker had
    exited, the second one is sent the signal. *)
Example teardown_of_two_shards :
  batch_teardown two_shards
  = Some ([mkProcess 0 false false; mkProcess 1 true true], mkQueue 0 true).
Proof. reflexivity. Qed.
